(** * SimpleGameEngine: a shallow embedding of the 2D physics and collision core

  The engine class of the repository is embedded as pure functions over an
  explicit engine state.  Conventions of the embedding:

  - a JavaScript number is an exact rational ([Q]); rounding, [NaN] and the
    infinities of IEEE doubles are outside the model.  Arithmetic results
    are compared with [==] ([Qeq]), untouched fields with [=].  A statement
    that equates two different arithmetic expressions holds of the code up
    to the rounding of its doubles only; the statements below keep to the
    expressions the code itself evaluates, except where they say
    otherwise;
  - an object reference is its index in [gameObjects] (objects are only
    created by [createGameObject], which pushes a fresh object, so two
    indices never alias);
  - [eventListeners], a JS object used as a dictionary from event names to
    arrays of callbacks, is a [gmap string (list Callback)] of its own
    properties; reading a name it does not own falls through to
    [Object.prototype], whose property names are listed in [Js.inherited];
  - a method call that can throw returns a [Completion.t]: the engine state
    it leaves, and the error when it throws;
  - a callback is external code.  The engine's observable effect on it is
    the call it makes: every invocation is appended, with its arguments, to
    the [calls] trace of the engine state.  What a callback does to the
    engine when it runs is not part of the engine and is not modelled;
  - of the DOM element of an object only what the engine writes and reads is
    kept: the four inline style lengths and the measured offset size.  Each
    object holds its element by value: two objects made from one DOM node
    share it in the browser, which the model does not track, so nothing
    below is said about the element of one object after a write through
    another. *)

From Stdlib Require Import QArith Qminmax Lqa.
From stdpp Require Import gmap strings list fin_maps.

(** ** JavaScript numbers and their comparisons *)

Module Js.

Definition lt (a b : Q) : bool := negb (Qle_bool b a).
Definition gt (a b : Q) : bool := lt b a.

(** [Math.min] on two numbers. *)
Definition min (a b : Q) : Q := Qmin a b.

(** Truthiness of a number: [0] is falsy. *)
Definition truthy (a : Q) : bool := negb (Qeq_bool a 0).

(** [v || d] for an optional numeric property. *)
Definition or_else (v : option Q) (d : Q) : Q :=
  match v with
  | Some a => if truthy a then a else d
  | None => d
  end.

(** The property names every object inherits from [Object.prototype].  Each
  of them reads as a function (for [__proto__]: as the prototype object), so
  as a truthy value that is no array. *)
Definition inheritedNames : list string :=
  ["constructor"; "hasOwnProperty"; "isPrototypeOf"; "propertyIsEnumerable";
   "toLocaleString"; "toString"; "valueOf"; "__proto__";
   "__defineGetter__"; "__defineSetter__"; "__lookupGetter__";
   "__lookupSetter__"].

Definition inherited (name : string) : bool :=
  existsb (String.eqb name) inheritedNames.

End Js.

Arguments Js.inherited : simpl never.

(** ** Data model *)

(** Value of an inline style length: the template [`${n}px`] of a number or
  of [undefined], as the engine writes it, or nothing set yet. *)
Inductive CssLength : Type :=
| px (n : Q)
| undefinedpx
| unset.

Module Element.
Record t : Type := mk {
  left : CssLength;
  top : CssLength;
  height : CssLength;
  width : CssLength;
  offsetWidth : Q;
  offsetHeight : Q
}.

Definition set_left (v : CssLength) (e : t) : t :=
  mk v (top e) (height e) (width e) (offsetWidth e) (offsetHeight e).
Definition set_top (v : CssLength) (e : t) : t :=
  mk (left e) v (height e) (width e) (offsetWidth e) (offsetHeight e).
Definition set_height (v : CssLength) (e : t) : t :=
  mk (left e) (top e) v (width e) (offsetWidth e) (offsetHeight e).
Definition set_width (v : CssLength) (e : t) : t :=
  mk (left e) (top e) (height e) v (offsetWidth e) (offsetHeight e).
End Element.

(** A callback is known to the engine by its identity only. *)
Inductive Callback : Type :=
| fn (name : string).

Module Direction.
Inductive t : Type := left | right | top | bottom.
End Direction.

(** What [isColliding] reads of its arguments: a game object or the [feet]
  probe of [isOnGround]. *)
Module Rect.
Record t : Type := mk { x : Q; y : Q; width : Q; height : Q }.
End Rect.

Module AutoMove.
Record t : Type := mk { x : Q; y : Q }.
End AutoMove.

(** [isPlatform] is read by [isOnGround]; [createGameObject] never sets it,
  and an absent property is falsy. *)
Module GameObject.
Record t : Type := mk {
  id : string;
  element : Element.t;
  x : Q;
  y : Q;
  width : Q;
  height : Q;
  velocityX : Q;
  velocityY : Q;
  autoMove : option AutoMove.t;
  isStatic : bool;
  isPlayerControlled : bool;
  requireGround : bool;
  tag : string;
  onCollision : option Callback;
  isPlatform : bool
}.

Definition set_element (v : Element.t) (o : t) : t :=
  mk (id o) v (x o) (y o) (width o) (height o) (velocityX o) (velocityY o)
     (autoMove o) (isStatic o) (isPlayerControlled o) (requireGround o)
     (tag o) (onCollision o) (isPlatform o).
Definition set_x (v : Q) (o : t) : t :=
  mk (id o) (element o) v (y o) (width o) (height o) (velocityX o)
     (velocityY o) (autoMove o) (isStatic o) (isPlayerControlled o)
     (requireGround o) (tag o) (onCollision o) (isPlatform o).
Definition set_y (v : Q) (o : t) : t :=
  mk (id o) (element o) (x o) v (width o) (height o) (velocityX o)
     (velocityY o) (autoMove o) (isStatic o) (isPlayerControlled o)
     (requireGround o) (tag o) (onCollision o) (isPlatform o).
Definition set_velocityX (v : Q) (o : t) : t :=
  mk (id o) (element o) (x o) (y o) (width o) (height o) v (velocityY o)
     (autoMove o) (isStatic o) (isPlayerControlled o) (requireGround o)
     (tag o) (onCollision o) (isPlatform o).
Definition set_velocityY (v : Q) (o : t) : t :=
  mk (id o) (element o) (x o) (y o) (width o) (height o) (velocityX o) v
     (autoMove o) (isStatic o) (isPlayerControlled o) (requireGround o)
     (tag o) (onCollision o) (isPlatform o).

(** The rectangle of an object: its [x], [y], [width], [height]. *)
Definition rect (o : t) : Rect.t :=
  Rect.mk (x o) (y o) (width o) (height o).

(** [obj.element.style.left = `${obj.x}px`; obj.element.style.top = ...] *)
Definition syncElement (o : t) : t :=
  set_element
    (Element.set_top (px (y o)) (Element.set_left (px (x o)) (element o))) o.
End GameObject.

Module CollisionData.
Record t : Type := mk { overlapX : Q; overlapY : Q; direction : Direction.t }.
End CollisionData.

(** The [options] argument of [createGameObject]; an absent property is
  [None] (for the flags: [false], which is what [|| false] makes of it). *)
Module Options.
Record t : Type := mk {
  x : option Q;
  y : option Q;
  width : option Q;
  height : option Q;
  autoMove : option AutoMove.t;
  isStatic : bool;
  isPlayerControlled : bool;
  requireGround : bool;
  tag : option string;
  onCollision : option Callback
}.
End Options.

(** Arguments the engine passes to callbacks.  Objects are passed by
  reference. *)
Inductive Value : Type :=
| VObject (ref : nat)
| VCollisionData (data : CollisionData.t)
| VCollision (obj1 obj2 : nat) (overlapX overlapY : Q)
             (direction : Direction.t).

(** One callback invocation. *)
Inductive Call : Type :=
| call (callback : Callback) (args : list Value).

(** A one-shot timer armed by [setTimeout]: after [delay] milliseconds the
  engine emits [event] with [data]. *)
Module Timer.
Record t : Type := mk { delay : Q; event : string; data : Value }.
End Timer.

(** [timers] holds the timers armed and not yet fired; [calls] the callback
  invocations made so far, oldest first. *)
Module Engine.
Record t : Type := mk {
  width : Q;
  height : Q;
  gameObjects : list GameObject.t;
  eventListeners : gmap string (list Callback);
  lastTime : Q;
  timers : list Timer.t;
  calls : list Call
}.

Definition set_gameObjects (v : list GameObject.t) (e : t) : t :=
  mk (width e) (height e) v (eventListeners e) (lastTime e) (timers e)
     (calls e).
Definition set_eventListeners (v : gmap string (list Callback)) (e : t) : t :=
  mk (width e) (height e) (gameObjects e) v (lastTime e) (timers e)
     (calls e).
Definition set_lastTime (v : Q) (e : t) : t :=
  mk (width e) (height e) (gameObjects e) (eventListeners e) v (timers e)
     (calls e).
Definition set_timers (v : list Timer.t) (e : t) : t :=
  mk (width e) (height e) (gameObjects e) (eventListeners e) (lastTime e) v
     (calls e).
Definition set_calls (v : list Call) (e : t) : t :=
  mk (width e) (height e) (gameObjects e) (eventListeners e) (lastTime e)
     (timers e) v.

(** Write through the reference [i]. *)
Definition store (i : nat) (o : GameObject.t) (e : t) : t :=
  set_gameObjects (<[i := o]> (gameObjects e)) e.

(** Record the invocation [callback(args...)]. *)
Definition invoke (cb : Callback) (args : list Value) (e : t) : t :=
  set_calls (calls e ++ [call cb args]) e.
End Engine.

(** How a call of a method ends: it returns, or it throws; either way it
  leaves an engine state. *)
Module Completion.
Inductive t : Type :=
| Normal (e : Engine.t)
| Throw (error : string) (e : Engine.t).

Definition state (c : t) : Engine.t :=
  match c with
  | Normal e => e
  | Throw _ e => e
  end.
End Completion.

(** What [this.eventListeners[event]] reads. *)
Inductive Property : Type :=
| Listeners (listeners : list Callback)
| Inherited
| Undefined.

(** ** The engine's methods *)

Module SimpleGameEngine.

Import Engine.

Local Open Scope Q_scope.

(** The state the constructor leaves, before the loop starts. *)
Definition new (width height : option Q) : Engine.t :=
  Engine.mk (Js.or_else width 800) (Js.or_else height 600) [] ∅ 0 [] [].

(** AABB test. *)
Definition isColliding (obj1 obj2 : Rect.t) : bool :=
  Js.lt (Rect.x obj1) (Rect.x obj2 + Rect.width obj2) &&
  Js.gt (Rect.x obj1 + Rect.width obj1) (Rect.x obj2) &&
  Js.lt (Rect.y obj1) (Rect.y obj2 + Rect.height obj2) &&
  Js.gt (Rect.y obj1 + Rect.height obj1) (Rect.y obj2).

Definition getCollisionData (obj1 obj2 : GameObject.t) : CollisionData.t :=
  let overlapX :=
    Js.min (GameObject.x obj1 + GameObject.width obj1 - GameObject.x obj2)
           (GameObject.x obj2 + GameObject.width obj2 - GameObject.x obj1) in
  let overlapY :=
    Js.min (GameObject.y obj1 + GameObject.height obj1 - GameObject.y obj2)
           (GameObject.y obj2 + GameObject.height obj2 - GameObject.y obj1) in
  let direction :=
    if Js.lt overlapX overlapY then
      if Js.lt (GameObject.x obj1) (GameObject.x obj2)
      then Direction.left else Direction.right
    else
      if Js.lt (GameObject.y obj1) (GameObject.y obj2)
      then Direction.top else Direction.bottom in
  CollisionData.mk overlapX overlapY direction.

(** [if (!obj.isStatic) obj.field = f(obj.field)] *)
Definition unlessStatic (f : GameObject.t -> GameObject.t)
    (obj : GameObject.t) : GameObject.t :=
  if GameObject.isStatic obj then obj else f obj.

Definition moveX (d : Q) (obj : GameObject.t) : GameObject.t :=
  GameObject.set_x (GameObject.x obj + d) obj.
Definition moveY (d : Q) (obj : GameObject.t) : GameObject.t :=
  GameObject.set_y (GameObject.y obj + d) obj.

(** The two objects are distinct references; the pair returned is their
    contents after the call. *)
Definition resolveCollision (obj1 obj2 : GameObject.t)
    (collisionData : CollisionData.t) : GameObject.t * GameObject.t :=
  let direction := CollisionData.direction collisionData in
  let overlapX := CollisionData.overlapX collisionData in
  let overlapY := CollisionData.overlapY collisionData in
  if GameObject.isStatic obj1 && GameObject.isStatic obj2 then (obj1, obj2)
  else
    let '(obj1, obj2) :=
      match direction with
      | Direction.left =>
          (unlessStatic (moveX (- overlapX)) obj1,
           unlessStatic (moveX overlapX) obj2)
      | Direction.right =>
          (unlessStatic (moveX overlapX) obj1,
           unlessStatic (moveX (- overlapX)) obj2)
      | Direction.top =>
          (unlessStatic (moveY (- overlapY)) obj1,
           unlessStatic (moveY overlapY) obj2)
      | Direction.bottom =>
          (unlessStatic (moveY overlapY) obj1,
           unlessStatic (moveY (- overlapY)) obj2)
      end in
    let obj1 := GameObject.syncElement obj1 in
    let obj2 := GameObject.syncElement obj2 in
    match direction with
    | Direction.left | Direction.right =>
        (unlessStatic (GameObject.set_velocityX 0) obj1,
         unlessStatic (GameObject.set_velocityX 0) obj2)
    | _ =>
        (unlessStatic (GameObject.set_velocityY 0) obj1,
         unlessStatic (GameObject.set_velocityY 0) obj2)
    end.

(** *** Event system *)

(** [this.eventListeners[event]]: the own property when there is one,
  otherwise what the prototype chain gives. *)
Definition getListeners (e : Engine.t) (event : string) : Property :=
  match eventListeners e !! event with
  | Some listeners => Listeners listeners
  | None => if Js.inherited event then Inherited else Undefined
  end.

(** An inherited value is truthy, so the list is not initialised, and it has
  no [push]: the call throws before anything is written. *)
Definition on (event : string) (callback : Callback) (e : Engine.t)
    : Completion.t :=
  match getListeners e event with
  | Undefined =>
      Completion.Normal
        (set_eventListeners
           (alter (fun l => l ++ [callback]) event
              (<[event := []]> (eventListeners e))) e)
  | Listeners _ =>
      Completion.Normal
        (set_eventListeners
           (alter (fun l => l ++ [callback]) event (eventListeners e)) e)
  | Inherited =>
      Completion.Throw
        "TypeError: this.eventListeners[event].push is not a function" e
  end.

(** An inherited value is truthy and has no [forEach]: the call throws
  before any callback is called. *)
Definition emit (event : string) (data : Value) (e : Engine.t)
    : Completion.t :=
  match getListeners e event with
  | Listeners listeners =>
      Completion.Normal
        (fold_left (fun e callback => invoke callback [data] e) listeners e)
  | Undefined => Completion.Normal e
  | Inherited =>
      Completion.Throw "TypeError: listeners.forEach is not a function" e
  end.

(** *** Object registry *)

(** [element] is the DOM element the lookup found or the [div] just created
  for [elementId]; its offset size is what the browser measures once the
  inline style is set.  The result is the reference of the new object.
  When the lookup finds a node that a registered object already holds, the
  style written here shows through that object's element too; the registry
  of the model keeps the earlier object's copy as it was. *)
Definition createGameObject (elementId : string) (element : Element.t)
    (options : Options.t) (e : Engine.t) : nat * Engine.t :=
  let css (v : option Q) :=
    match v with Some n => px n | None => undefinedpx end in
  let element := Element.set_left (css (Options.x options)) element in
  let element := Element.set_top (css (Options.y options)) element in
  let element := Element.set_height (css (Options.height options)) element in
  let element := Element.set_width (css (Options.width options)) element in
  let gameObject :=
    GameObject.mk
      elementId
      element
      (Js.or_else (Options.x options) 0)
      (Js.or_else (Options.y options) 0)
      (Js.or_else (Options.width options) (Element.offsetWidth element))
      (Js.or_else (Options.height options) (Element.offsetHeight element))
      0
      0
      (Options.autoMove options)
      (Options.isStatic options)
      (Options.isPlayerControlled options)
      (Options.requireGround options)
      (default String.EmptyString (Options.tag options))
      (Options.onCollision options)
      false in
  let ref := length (gameObjects e) in
  let e := set_gameObjects (gameObjects e ++ [gameObject]) e in
  let e :=
    if GameObject.isPlayerControlled gameObject
    then set_timers
           (timers e ++ [Timer.mk 1000 "playerCreated" (VObject ref)]) e
    else e in
  (ref, e).

(** *** Physics *)

(** [obj] is the content of the reference [i]. *)
Definition isOnGround (e : Engine.t) (i : nat) (obj : GameObject.t) : bool :=
  let feet :=
    Rect.mk (GameObject.x obj)
            (GameObject.y obj + GameObject.height obj + 1)
            (GameObject.width obj)
            1 in
  existsb
    (fun '(k, other) =>
       negb (Nat.eqb k i) &&
       negb (GameObject.isPlatform other) &&
       isColliding feet (GameObject.rect other))
    (imap pair (gameObjects e)).

Definition applyAutoMove (obj : GameObject.t) : GameObject.t :=
  match GameObject.autoMove obj with
  | Some autoMove =>
      GameObject.set_velocityY (AutoMove.y autoMove)
        (GameObject.set_velocityX (AutoMove.x autoMove) obj)
  | None => obj
  end.

Definition applyGravity (deltaTime : Q) (e : Engine.t) (i : nat)
    (obj : GameObject.t) : GameObject.t :=
  if GameObject.requireGround obj && negb (isOnGround e i obj)
  then GameObject.set_velocityY
         (GameObject.velocityY obj + 500 * (deltaTime / 500)) obj
  else obj.

Definition integrate (deltaTime : Q) (obj : GameObject.t) : GameObject.t :=
  let obj :=
    GameObject.set_x
      (GameObject.x obj + GameObject.velocityX obj * (deltaTime / 1000)) obj in
  GameObject.set_y
    (GameObject.y obj + GameObject.velocityY obj * (deltaTime / 1000)) obj.

(** The body of the [forEach] of [update], run on the object at index [i].
  The name [hitBoundary] is not an inherited one, so [emit] returns here. *)
Definition updateObject (deltaTime : Q) (e : Engine.t) (i : nat) : Engine.t :=
  match gameObjects e !! i with
  | None => e
  | Some obj =>
      if GameObject.isStatic obj then e
      else
        let obj := applyAutoMove obj in
        let obj := applyGravity deltaTime e i obj in
        let obj := integrate deltaTime obj in
        let e := store i obj e in
        match emit "hitBoundary" (VObject i) e with
        | Completion.Normal e => store i (GameObject.syncElement obj) e
        | Completion.Throw _ e => e
        end
  end.

Definition update (deltaTime : Q) (e : Engine.t) : Engine.t :=
  fold_left (updateObject deltaTime) (seq 0 (length (gameObjects e))) e.

(** *** Collisions *)

(** The body of the inner loop of [checkCollisions], for the pair of
  indices [i], [j].  The call of [emit] is its last statement; the name
  [collision] is not an inherited one, so it returns. *)
Definition collidePair (e : Engine.t) (i j : nat) : Engine.t :=
  match gameObjects e !! i, gameObjects e !! j with
  | Some obj1, Some obj2 =>
      if isColliding (GameObject.rect obj1) (GameObject.rect obj2) then
        let collisionData := getCollisionData obj1 obj2 in
        let '(obj1, obj2) := resolveCollision obj1 obj2 collisionData in
        let e := store j obj2 (store i obj1 e) in
        let e :=
          match GameObject.onCollision obj1 with
          | Some callback =>
              invoke callback [VObject j; VCollisionData collisionData] e
          | None => e
          end in
        let e :=
          match GameObject.onCollision obj2 with
          | Some callback =>
              invoke callback [VObject i; VCollisionData collisionData] e
          | None => e
          end in
        Completion.state
          (emit "collision"
             (VCollision i j
                (CollisionData.overlapX collisionData)
                (CollisionData.overlapY collisionData)
                (CollisionData.direction collisionData)) e)
      else e
  | _, _ => e
  end.

(** The inner loop: [for (let j = i + 1; j < n; j++)]. *)
Definition collideRow (n : nat) (e : Engine.t) (i : nat) : Engine.t :=
  fold_left (fun e j => collidePair e i j) (seq (i + 1) (n - (i + 1))) e.

Definition checkCollisions (e : Engine.t) : Engine.t :=
  let n := length (gameObjects e) in
  fold_left (collideRow n) (seq 0 n) e.

(** *** Main loop *)

(** One run of [gameLoop] at [timestamp]; rescheduling the next frame is the
  browser's part. *)
Definition gameLoop (timestamp : Q) (e : Engine.t) : Engine.t :=
  let deltaTime := timestamp - lastTime e in
  let e := set_lastTime timestamp e in
  let e := update deltaTime e in
  checkCollisions e.

End SimpleGameEngine.

(** ** Specification-side vocabulary *)

Import SimpleGameEngine.

Local Open Scope Q_scope.

(** Two rectangles touch when a side of one lies on the line of the opposite
  side of the other: they share at most an edge or a corner. *)
Definition touching (a b : Rect.t) : Prop :=
  Rect.x a + Rect.width a == Rect.x b \/
  Rect.x b + Rect.width b == Rect.x a \/
  Rect.y a + Rect.height a == Rect.y b \/
  Rect.y b + Rect.height b == Rect.y a.

(** The four strict inequalities of the intersection test. *)
Definition strictlyOverlapping (a b : Rect.t) : Prop :=
  Rect.x a < Rect.x b + Rect.width b /\
  Rect.x a + Rect.width a > Rect.x b /\
  Rect.y a < Rect.y b + Rect.height b /\
  Rect.y a + Rect.height a > Rect.y b.

(** Penetration depths as the specification writes them. *)
Definition overlapX (a b : GameObject.t) : Q :=
  Qmin (GameObject.x a + GameObject.width a - GameObject.x b)
       (GameObject.x b + GameObject.width b - GameObject.x a).

Definition overlapY (a b : GameObject.t) : Q :=
  Qmin (GameObject.y a + GameObject.height a - GameObject.y b)
       (GameObject.y b + GameObject.height b - GameObject.y a).

(** The calls one [emit] of [event] with [data] makes in state [e]: one per
  subscribed callback, in subscription order. *)
Definition dispatched (event : string) (data : Value) (e : Engine.t)
    : list Call :=
  map (fun callback => call callback [data])
      (default [] (Engine.eventListeners e !! event)).

(** The object at a reference. *)
Definition deref (e : Engine.t) (ref : nat) : option GameObject.t :=
  Engine.gameObjects e !! ref.

(** The object [update] leaves in place of a non-static [obj] held at
  reference [i], before its element is refreshed. *)
Definition moved (deltaTime : Q) (e : Engine.t) (i : nat)
    (obj : GameObject.t) : GameObject.t :=
  integrate deltaTime (applyGravity deltaTime e i (applyAutoMove obj)).

(** References of the non-static objects, in registry order. *)
Definition movable (e : Engine.t) : list nat :=
  List.filter
    (fun i =>
       match deref e i with
       | Some obj => negb (GameObject.isStatic obj)
       | None => false
       end)
    (seq 0 (length (Engine.gameObjects e))).

(** The calls [update] makes for the object at reference [i]. *)
Definition hitBoundaryCalls (e : Engine.t) (i : nat) : list Call :=
  match deref e i with
  | Some obj =>
      if GameObject.isStatic obj then []
      else dispatched "hitBoundary" (VObject i) e
  | None => []
  end.

(** The engine state when the [forEach] of [update] reaches index [i]. *)
Definition reached (deltaTime : Q) (e : Engine.t) (i : nat) : Engine.t :=
  fold_left (updateObject deltaTime) (seq 0 i) e.

(** What a pass over the registry leaves alone: the registry keeps its
  length, every static object is untouched, and so are the subscriptions,
  the timers, the clock and the size of the scene. *)
Record preserved (e e' : Engine.t) : Prop := mkPreserved {
  preserved_length :
    length (Engine.gameObjects e') = length (Engine.gameObjects e);
  preserved_static :
    forall (k : nat) (obj : GameObject.t),
      deref e k = Some obj -> GameObject.isStatic obj = true ->
      deref e' k = Some obj;
  preserved_eventListeners :
    Engine.eventListeners e' = Engine.eventListeners e;
  preserved_timers : Engine.timers e' = Engine.timers e;
  preserved_lastTime : Engine.lastTime e' = Engine.lastTime e;
  preserved_width : Engine.width e' = Engine.width e;
  preserved_height : Engine.height e' = Engine.height e
}.

(** [obj'] is [obj] up to its DOM element. *)
Definition sameButElement (obj obj' : GameObject.t) : Prop :=
  obj' = GameObject.set_element (GameObject.element obj') obj.

(** The calls the engine makes for one detected collision of the pair of
  references [i], [j]: the two [onCollision] callbacks when set, then the
  subscribers of [collision]. *)
Definition collisionCalls (e : Engine.t) (i j : nat)
    (onCollision1 onCollision2 : option Callback) (data : CollisionData.t)
    : list Call :=
  match onCollision1 with
  | Some callback => [call callback [VObject j; VCollisionData data]]
  | None => []
  end ++
  match onCollision2 with
  | Some callback => [call callback [VObject i; VCollisionData data]]
  | None => []
  end ++
  dispatched "collision"
    (VCollision i j (CollisionData.overlapX data)
                (CollisionData.overlapY data) (CollisionData.direction data))
    e.

(** What a collision pass leaves alone: the registry keeps its length, a
  static object keeps everything but, possibly, its element, the
  subscriptions stay, and the calls made so far stay at the head of the
  trace. *)
Record settled (e e' : Engine.t) : Prop := mkSettled {
  settled_length :
    length (Engine.gameObjects e') = length (Engine.gameObjects e);
  settled_static :
    forall (k : nat) (obj : GameObject.t),
      deref e k = Some obj -> GameObject.isStatic obj = true ->
      exists obj' : GameObject.t,
        deref e' k = Some obj' /\ sameButElement obj obj';
  settled_eventListeners :
    Engine.eventListeners e' = Engine.eventListeners e;
  settled_calls :
    exists more : list Call, Engine.calls e' = Engine.calls e ++ more
}.

(** The overlap left along the separation axis once the collision of [obj1]
  and [obj2] has been resolved: [overlapX] of the new positions for [left]
  and [right], [overlapY] for [top] and [bottom]. *)
Definition residualOverlap (obj1 obj2 : GameObject.t) : Q :=
  let data := getCollisionData obj1 obj2 in
  let resolved := resolveCollision obj1 obj2 data in
  match CollisionData.direction data with
  | Direction.left | Direction.right => overlapX (fst resolved) (snd resolved)
  | Direction.top | Direction.bottom => overlapY (fst resolved) (snd resolved)
  end.

(** The depth reported on the separation axis is measured on the side the
  direction names: for [left], from the right side of [obj1] to the left side
  of [obj2], and so on. *)
Definition nearSideChosen (obj1 obj2 : GameObject.t) : Prop :=
  match CollisionData.direction (getCollisionData obj1 obj2) with
  | Direction.left =>
      GameObject.x obj1 + GameObject.width obj1 - GameObject.x obj2 <=
      GameObject.x obj2 + GameObject.width obj2 - GameObject.x obj1
  | Direction.right =>
      GameObject.x obj2 + GameObject.width obj2 - GameObject.x obj1 <=
      GameObject.x obj1 + GameObject.width obj1 - GameObject.x obj2
  | Direction.top =>
      GameObject.y obj1 + GameObject.height obj1 - GameObject.y obj2 <=
      GameObject.y obj2 + GameObject.height obj2 - GameObject.y obj1
  | Direction.bottom =>
      GameObject.y obj2 + GameObject.height obj2 - GameObject.y obj1 <=
      GameObject.y obj1 + GameObject.height obj1 - GameObject.y obj2
  end.

(** *** Sample scenes *)

(** A [div] just created: nothing set in its inline style, no size yet. *)
Definition freshDiv : Element.t := Element.mk unset unset unset unset 0 0.

(** Options giving a rectangle and the static flag. *)
Definition boxOptions (x y w h : Q) (static : bool) : Options.t :=
  Options.mk (Some x) (Some y) (Some w) (Some h) None static false false
             None None.

(** The object [createGameObject] makes of [boxOptions] when the four numbers
  are not zero. *)
Definition box (id : string) (x y w h : Q) (static : bool) : GameObject.t :=
  GameObject.mk id (Element.mk (px x) (px y) (px h) (px w) 0 0) x y w h 0 0
                None static false false String.EmptyString None false.

(** The scene of a static box [a] and a moving box [b] that overlap by ten
  units along the horizontal axis. *)
Definition twoBoxes : Engine.t :=
  let e := SimpleGameEngine.new None None in
  let e := snd (createGameObject "a" freshDiv (boxOptions 0 0 50 50 true) e) in
  snd (createGameObject "b" freshDiv (boxOptions 40 0 50 50 false) e).

(** A player box that needs ground, high above a static floor. *)
Definition airborne : Engine.t :=
  let e := SimpleGameEngine.new None None in
  let e :=
    snd (createGameObject "floor" freshDiv (boxOptions 1 400 800 20 true) e) in
  snd (createGameObject "player" freshDiv
         (Options.mk (Some 10) (Some 10) (Some 20) (Some 20) None false false
                     true None None) e).

(** Two static boxes that overlap, each with its own collision callback, and
  one subscriber of [collision]. *)
Definition wall : GameObject.t :=
  GameObject.mk "wall" (Element.mk (px 1) (px 1) (px 50) (px 50) 0 0)
                1 1 50 50 0 0 None true false false String.EmptyString
                (Some (fn "wallHit")) false.

Definition crate : GameObject.t :=
  GameObject.mk "crate" (Element.mk (px 30) (px 20) (px 50) (px 50) 0 0)
                30 20 50 50 0 0 None true false false String.EmptyString
                (Some (fn "crateHit")) false.

Definition staticPair : Engine.t :=
  let e := SimpleGameEngine.new None None in
  let e :=
    snd (createGameObject "wall" freshDiv
           (Options.mk (Some 1) (Some 1) (Some 50) (Some 50) None true false
                       false None (Some (fn "wallHit"))) e) in
  let e :=
    snd (createGameObject "crate" freshDiv
           (Options.mk (Some 30) (Some 20) (Some 50) (Some 50) None true false
                       false None (Some (fn "crateHit"))) e) in
  Completion.state (on "collision" (fn "log") e).

(** A wide box and a narrow one lying inside it, next to its left side. *)
Definition wide : GameObject.t := box "wide" 0 0 100 100 false.
Definition narrow : GameObject.t := box "narrow" 1 0 2 100 false.

(** *** Vocabulary of the further properties *)


(** [v] is an option the engine treats as not given: absent, or [0]. *)
Definition falsy (v : option Q) : Prop :=
  v = None \/ exists a : Q, v = Some a /\ a == 0.

(** What no method of the engine writes after creation. *)
Definition kept (obj obj' : GameObject.t) : Prop :=
  GameObject.id obj' = GameObject.id obj /\
  GameObject.width obj' = GameObject.width obj /\
  GameObject.height obj' = GameObject.height obj /\
  GameObject.autoMove obj' = GameObject.autoMove obj /\
  GameObject.isStatic obj' = GameObject.isStatic obj /\
  GameObject.isPlayerControlled obj' = GameObject.isPlayerControlled obj /\
  GameObject.requireGround obj' = GameObject.requireGround obj /\
  GameObject.tag obj' = GameObject.tag obj /\
  GameObject.onCollision obj' = GameObject.onCollision obj /\
  GameObject.isPlatform obj' = GameObject.isPlatform obj.

(** What a frame leaves of the engine: the registry keeps its length and
  order, every object keeps what [kept] lists, and the subscriptions, the
  pending timers and the scene size stay. *)
Record framed (e e' : Engine.t) : Prop := mkFramed {
  framed_length :
    length (Engine.gameObjects e') = length (Engine.gameObjects e);
  framed_kept :
    forall (k : nat) (obj : GameObject.t),
      deref e k = Some obj ->
      exists obj' : GameObject.t, deref e' k = Some obj' /\ kept obj obj';
  framed_eventListeners :
    Engine.eventListeners e' = Engine.eventListeners e;
  framed_timers : Engine.timers e' = Engine.timers e;
  framed_width : Engine.width e' = Engine.width e;
  framed_height : Engine.height e' = Engine.height e
}.

(** The probe [isOnGround] puts under an object. *)
Definition feet (obj : GameObject.t) : Rect.t :=
  Rect.mk (GameObject.x obj) (GameObject.y obj + GameObject.height obj + 1)
          (GameObject.width obj) 1.

(** No callback can be reached from a collision: no object has
  [onCollision] and nobody subscribed to [collision]. *)
Definition collisionSilent (e : Engine.t) : Prop :=
  (forall (k : nat) (obj : GameObject.t),
     deref e k = Some obj -> GameObject.onCollision obj = None) /\
  Engine.eventListeners e !! "collision" = None.

Definition opposite (d : Direction.t) : Direction.t :=
  match d with
  | Direction.left => Direction.right
  | Direction.right => Direction.left
  | Direction.top => Direction.bottom
  | Direction.bottom => Direction.top
  end.

(** The pair after [resolveCollision] on its own collision data. *)
Definition resolved (obj1 obj2 : GameObject.t) : GameObject.t * GameObject.t :=
  resolveCollision obj1 obj2 (getCollisionData obj1 obj2).

(** A box of the given height under a player standing exactly on it. *)
Definition onFloor (floorHeight : Q) : Engine.t :=
  let e := SimpleGameEngine.new None None in
  let e :=
    snd (createGameObject "floor" freshDiv
           (boxOptions 1 100 200 floorHeight true) e) in
  snd (createGameObject "player" freshDiv (boxOptions 10 50 20 50 false) e).

(** A box drifting to the right at 30 units per second. *)
Definition drifting : Engine.t :=
  Engine.store 1
    (GameObject.set_velocityX 30 (box "b" 400 200 50 50 false)) twoBoxes.

(** A frame that reaches no callback leaves the trace of calls alone. *)
Definition quiet (e e' : Engine.t) : Prop :=
  framed e e' /\
  Engine.lastTime e' = Engine.lastTime e /\
  (collisionSilent e -> Engine.calls e' = Engine.calls e).

(** The calls of the pair step for the references [i], [j] in [e]: those of
  a detected collision when the two objects collide, none otherwise. *)
Definition pairCalls (e : Engine.t) (i j : nat) : list Call :=
  match deref e i, deref e j with
  | Some obj1, Some obj2 =>
      if isColliding (GameObject.rect obj1) (GameObject.rect obj2)
      then collisionCalls e i j (GameObject.onCollision obj1)
             (GameObject.onCollision obj2) (getCollisionData obj1 obj2)
      else []
  | _, _ => []
  end.

(** Three static boxes overlapping one another, with a subscriber. *)
Definition threeWalls : Engine.t :=
  let e := SimpleGameEngine.new None None in
  let e :=
    snd (createGameObject "w0" freshDiv (boxOptions 1 1 50 50 true) e) in
  let e :=
    snd (createGameObject "w1" freshDiv (boxOptions 20 10 50 50 true) e) in
  let e :=
    snd (createGameObject "w2" freshDiv (boxOptions 30 30 50 50 true) e) in
  Completion.state (on "collision" (fn "log") e).

(** ** Comparisons *)

Lemma lt_true (a b : Q) : Js.lt a b = true <-> a < b.
Proof.
  unfold Js.lt. rewrite negb_true_iff, <- not_true_iff_false, Qle_bool_iff.
  split; [apply Qnot_le_lt | apply Qlt_not_le].
Qed.

Lemma lt_false (a b : Q) : Js.lt a b = false <-> b <= a.
Proof.
  unfold Js.lt. rewrite negb_false_iff. apply Qle_bool_iff.
Qed.

Lemma gt_true (a b : Q) : Js.gt a b = true <-> a > b.
Proof. apply lt_true. Qed.

(** ** Geometry *)

Lemma isColliding_true (a b : Rect.t) :
  isColliding a b = true <-> strictlyOverlapping a b.
Proof.
  unfold isColliding, strictlyOverlapping.
  rewrite !andb_true_iff, !gt_true, !lt_true. tauto.
Qed.

(** C3: [isColliding] is true exactly when the four strict inequalities
  hold, so rectangles that merely touch along an edge or at a corner are not
  colliding. *)
Theorem isColliding_strict (a b : Rect.t) :
  (isColliding a b = true <-> strictlyOverlapping a b) /\
  (touching a b -> isColliding a b = false).
Proof.
  split; [apply isColliding_true |].
  intros Ht. apply not_true_iff_false. rewrite isColliding_true.
  unfold strictlyOverlapping, touching in *.
  intros (H1 & H2 & H3 & H4).
  destruct Ht as [Ht | [Ht | [Ht | Ht]]]; lra.
Qed.

Lemma isColliding_strict_witness :
  touching (Rect.mk 0 0 10 10) (Rect.mk 10 0 10 10) /\
  isColliding (Rect.mk 0 0 10 10) (Rect.mk 10 0 10 10) = false.
Proof.
  split.
  - left. reflexivity.
  - apply (proj2 (isColliding_strict (Rect.mk 0 0 10 10) (Rect.mk 10 0 10 10))).
    left. reflexivity.
Defined.

(** C9: the intersection test is symmetric in its two arguments. *)
Theorem isColliding_sym (a b : Rect.t) : isColliding a b = isColliding b a.
Proof.
  unfold isColliding, Js.gt.
  destruct (Js.lt (Rect.x a) (Rect.x b + Rect.width b)),
           (Js.lt (Rect.x b) (Rect.x a + Rect.width a)),
           (Js.lt (Rect.y a) (Rect.y b + Rect.height b)),
           (Js.lt (Rect.y b) (Rect.y a + Rect.height a)); reflexivity.
Qed.

(** C2: the separation axis is chosen by the strict comparison
  [overlapX < overlapY]; on the horizontal axis the direction is [left] when
  [obj1.x < obj2.x] and [right] otherwise, on the vertical axis it is [top]
  when [obj1.y < obj2.y] and [bottom] otherwise, and a tie
  [overlapX == overlapY] goes to the vertical axis. *)
Theorem getCollisionData_direction (obj1 obj2 : GameObject.t) :
  let data := getCollisionData obj1 obj2 in
  CollisionData.overlapX data = overlapX obj1 obj2 /\
  CollisionData.overlapY data = overlapY obj1 obj2 /\
  (overlapX obj1 obj2 < overlapY obj1 obj2 ->
     (GameObject.x obj1 < GameObject.x obj2 ->
        CollisionData.direction data = Direction.left) /\
     (~ GameObject.x obj1 < GameObject.x obj2 ->
        CollisionData.direction data = Direction.right)) /\
  (~ overlapX obj1 obj2 < overlapY obj1 obj2 ->
     (GameObject.y obj1 < GameObject.y obj2 ->
        CollisionData.direction data = Direction.top) /\
     (~ GameObject.y obj1 < GameObject.y obj2 ->
        CollisionData.direction data = Direction.bottom)) /\
  (overlapX obj1 obj2 == overlapY obj1 obj2 ->
     CollisionData.direction data = Direction.top \/
     CollisionData.direction data = Direction.bottom).
Proof.
  cbn zeta. unfold getCollisionData, Js.min. cbn [CollisionData.overlapX
    CollisionData.overlapY CollisionData.direction].
  fold (overlapX obj1 obj2). fold (overlapY obj1 obj2).
  split; [reflexivity |]. split; [reflexivity |].
  destruct (Js.lt (overlapX obj1 obj2) (overlapY obj1 obj2)) eqn:Haxis.
  - apply lt_true in Haxis.
    destruct (Js.lt (GameObject.x obj1) (GameObject.x obj2)) eqn:Hx.
    + apply lt_true in Hx.
      repeat split; try reflexivity; intros; try contradiction; lra.
    + apply lt_false in Hx.
      repeat split; try reflexivity; intros; try contradiction; lra.
  - apply lt_false in Haxis.
    destruct (Js.lt (GameObject.y obj1) (GameObject.y obj2)) eqn:Hy.
    + apply lt_true in Hy.
      repeat split; try reflexivity; intros; try lra; try contradiction.
      left; reflexivity.
    + apply lt_false in Hy.
      repeat split; try reflexivity; intros; try lra; try contradiction.
      right; reflexivity.
Qed.

Lemma getCollisionData_direction_witness :
  (overlapX (box "a" 1 1 10 10 false) (box "b" 6 6 10 10 false) ==
   overlapY (box "a" 1 1 10 10 false) (box "b" 6 6 10 10 false) /\
   CollisionData.direction
     (getCollisionData (box "a" 1 1 10 10 false) (box "b" 6 6 10 10 false))
   = Direction.top) /\
  CollisionData.direction
    (getCollisionData (box "a" 1 1 10 10 false) (box "c" 9 1 10 10 false))
  = Direction.left.
Proof.
  split.
  - split; [reflexivity |].
    destruct (getCollisionData_direction
                (box "a" 1 1 10 10 false) (box "b" 6 6 10 10 false))
      as (_ & _ & _ & Hv & _).
    apply Hv; vm_compute; congruence.
  - destruct (getCollisionData_direction
                (box "a" 1 1 10 10 false) (box "c" 9 1 10 10 false))
      as (_ & _ & Hh & _ & _).
    apply Hh; reflexivity.
Defined.

(** ** Frame lemmas for the engine state *)

Lemma emit_calls (event : string) (data : Value) (e : Engine.t) :
  Completion.state (emit event data e) =
  Engine.set_calls (Engine.calls e ++ dispatched event data e) e.
Proof.
  unfold emit, getListeners, dispatched.
  destruct (Engine.eventListeners e !! event) as [listeners |].
  - cbn. revert e.
    induction listeners as [| cb listeners IH]; intros e; cbn.
    + rewrite app_nil_r. destruct e; reflexivity.
    + rewrite IH. unfold Engine.invoke, Engine.set_calls. cbn.
      rewrite <- app_assoc. reflexivity.
  - destruct (Js.inherited event); cbn [Completion.state default map];
      rewrite app_nil_r; destruct e; reflexivity.
Qed.

(** On a name that is not inherited [emit] returns. *)
Lemma emit_returns (event : string) (data : Value) (e : Engine.t) :
  Js.inherited event = false ->
  emit event data e =
  Completion.Normal
    (Engine.set_calls (Engine.calls e ++ dispatched event data e) e).
Proof.
  intros Hown. rewrite <- emit_calls.
  unfold emit, getListeners. rewrite Hown.
  destruct (Engine.eventListeners e !! event); reflexivity.
Qed.

(** The names the engine itself emits are not inherited: its own calls of
  [emit] always return. *)
Lemma emit_engine_names (data : Value) (e : Engine.t) :
  (exists e' : Engine.t,
     emit "hitBoundary" data e = Completion.Normal e') /\
  (exists e' : Engine.t,
     emit "collision" data e = Completion.Normal e') /\
  (exists e' : Engine.t,
     emit "playerCreated" data e = Completion.Normal e').
Proof.
  repeat split; eexists; apply emit_returns; reflexivity.
Qed.

Lemma emit_gameObjects (event : string) (data : Value) (e : Engine.t) :
  Engine.gameObjects (Completion.state (emit event data e)) =
  Engine.gameObjects e.
Proof. rewrite emit_calls. reflexivity. Qed.

Lemma emit_eventListeners (event : string) (data : Value) (e : Engine.t) :
  Engine.eventListeners (Completion.state (emit event data e)) =
  Engine.eventListeners e.
Proof. rewrite emit_calls. reflexivity. Qed.

Lemma emit_trace (event : string) (data : Value) (e : Engine.t) :
  Engine.calls (Completion.state (emit event data e)) =
  Engine.calls e ++ dispatched event data e.
Proof. rewrite emit_calls. reflexivity. Qed.

(** ** Event system *)

(** On a name that is not inherited [on] returns. *)
Lemma on_returns (event : string) (callback : Callback) (e : Engine.t) :
  Js.inherited event = false ->
  on event callback e = Completion.Normal (Completion.state (on event callback e)).
Proof.
  intros Hown. unfold on, getListeners. rewrite Hown.
  destruct (Engine.eventListeners e !! event); reflexivity.
Qed.

Lemma on_lookup (event : string) (callback : Callback) (e : Engine.t) :
  Js.inherited event = false ->
  Engine.eventListeners (Completion.state (on event callback e)) !! event =
  Some (default [] (Engine.eventListeners e !! event) ++ [callback]).
Proof.
  intros Hown. unfold on, getListeners. rewrite Hown.
  destruct (Engine.eventListeners e !! event) as [l |] eqn:Hl; cbn.
  - rewrite lookup_alter_eq, Hl. reflexivity.
  - rewrite lookup_alter_eq, lookup_insert_eq. reflexivity.
Qed.

Lemma on_lookup_ne (event other : string) (callback : Callback)
    (e : Engine.t) :
  other <> event ->
  Engine.eventListeners (Completion.state (on event callback e)) !! other =
  Engine.eventListeners e !! other.
Proof.
  intros Hne. unfold on, getListeners.
  destruct (Engine.eventListeners e !! event) as [l |] eqn:Hl; cbn.
  - rewrite lookup_alter_ne by congruence. reflexivity.
  - destruct (Js.inherited event); cbn; [reflexivity |].
    rewrite lookup_alter_ne, lookup_insert_ne by congruence. reflexivity.
Qed.

Lemma on_frame (event : string) (callback : Callback) (e : Engine.t) :
  Engine.gameObjects (Completion.state (on event callback e)) =
    Engine.gameObjects e /\
  Engine.calls (Completion.state (on event callback e)) = Engine.calls e /\
  Engine.timers (Completion.state (on event callback e)) = Engine.timers e.
Proof.
  unfold on, getListeners.
  destruct (Engine.eventListeners e !! event); [repeat split |].
  destruct (Js.inherited event); repeat split.
Qed.

(** The event system on every name that [Object.prototype] does not define:
  [on] returns, appends the callback to the ordered subscriber list of its
  event and touches nothing else; [emit] returns, calls every subscriber of
  the event once, in subscription order, with the payload, and does nothing
  when the event has no subscriber.  Subscribing [f1] then [f2] and emitting
  calls [f1] before [f2]; so does one collision found by
  [checkCollisions]. *)
Lemma event_bus_own_names (event : string) (data : Value) (f1 f2 : Callback)
    (e : Engine.t) :
  Js.inherited event = false ->
  let subscribers := default [] (Engine.eventListeners e !! event) in
  let e1 := Completion.state (on event f1 e) in
  let e2 := Completion.state (on event f2 e1) in
  on event f1 e = Completion.Normal e1 /\
  on event f2 e1 = Completion.Normal e2 /\
  Engine.eventListeners e1 !! event = Some (subscribers ++ [f1]) /\
  (forall other : string, other <> event ->
     Engine.eventListeners e1 !! other = Engine.eventListeners e !! other) /\
  Engine.gameObjects e1 = Engine.gameObjects e /\
  Engine.calls e1 = Engine.calls e /\
  emit event data e =
    Completion.Normal
      (Engine.set_calls
         (Engine.calls e ++
          map (fun callback => call callback [data]) subscribers) e) /\
  (Engine.eventListeners e !! event = None ->
     emit event data e = Completion.Normal e) /\
  emit event data e2 =
    Completion.Normal
      (Engine.set_calls
         (Engine.calls e ++
          map (fun callback => call callback [data]) subscribers ++
          [call f1 [data]; call f2 [data]]) e2) /\
  Engine.calls
    (checkCollisions
       (Completion.state
          (on "collision" f2
             (Completion.state (on "collision" f1 twoBoxes))))) =
    [call f1 [VCollision 0 1 10 50 Direction.left];
     call f2 [VCollision 0 1 10 50 Direction.left]].
Proof.
  intros Hown. cbn zeta.
  split; [apply on_returns; exact Hown |].
  split; [apply on_returns; exact Hown |].
  split; [apply on_lookup; exact Hown |].
  split; [intros other Hne; apply on_lookup_ne; assumption |].
  split; [apply on_frame |].
  split; [apply on_frame |].
  split; [apply emit_returns; exact Hown |].
  split.
  - intros Hnone. unfold emit, getListeners. rewrite Hnone, Hown.
    reflexivity.
  - split.
    + rewrite (emit_returns _ _ _ Hown). unfold dispatched.
      rewrite !on_lookup by exact Hown.
      do 2 (change (default [] (Some ?l)) with l).
      rewrite !map_app, <- !app_assoc.
      destruct (on_frame event f2 (Completion.state (on event f1 e)))
        as (_ & -> & _).
      destruct (on_frame event f1 e) as (_ & -> & _).
      reflexivity.
    + destruct f1, f2. vm_compute. reflexivity.
Qed.

Lemma event_bus_own_names_witness :
  emit "collision" (VObject 0) twoBoxes = Completion.Normal twoBoxes /\
  Engine.eventListeners
    (Completion.state (on "collision" (fn "f1") twoBoxes)) !! "hitBoundary"
  = None.
Proof.
  destruct (event_bus_own_names "collision" (VObject 0) (fn "f1") (fn "f2")
              twoBoxes eq_refl)
    as (_ & _ & _ & Hother & _ & _ & _ & Hnone & _).
  split.
  - apply Hnone. reflexivity.
  - rewrite Hother; [reflexivity | discriminate].
Defined.

(** C8: evaluation of the event system on names that every object inherits
  from [Object.prototype].  On a new engine [on("constructor", f)] throws and
  subscribes nothing, and [emit("toString", data)], with no subscriber, throws
  instead of doing nothing; the same holds in any state for any inherited
  name the dictionary does not own.  The claim has [on] append and [emit]
  call the subscribers for every event name. *)
Theorem event_bus_inherited_name (callback : Callback) (data : Value) :
  Js.inherited "constructor" = true /\
  Js.inherited "toString" = true /\
  on "constructor" callback (SimpleGameEngine.new None None) =
    Completion.Throw
      "TypeError: this.eventListeners[event].push is not a function"
      (SimpleGameEngine.new None None) /\
  emit "toString" data (SimpleGameEngine.new None None) =
    Completion.Throw "TypeError: listeners.forEach is not a function"
      (SimpleGameEngine.new None None) /\
  (forall (event : string) (e : Engine.t),
     Js.inherited event = true ->
     Engine.eventListeners e !! event = None ->
     (exists error : string,
        on event callback e = Completion.Throw error e) /\
     (exists error : string,
        emit event data e = Completion.Throw error e) /\
     Engine.eventListeners (Completion.state (on event callback e)) !! event
     = None).
Proof.
  do 4 (split; [reflexivity |]).
  intros event e Hinherited Hnone.
  unfold on, emit, getListeners. rewrite Hnone, Hinherited.
  split; [eexists; reflexivity |].
  split; [eexists; reflexivity | exact Hnone].
Qed.

Lemma event_bus_inherited_name_witness :
  exists error : string,
    emit "__proto__" (VObject 0) twoBoxes = Completion.Throw error twoBoxes.
Proof.
  apply (proj2 (proj2 (proj2 (proj2
           (event_bus_inherited_name (fn "f") (VObject 0)))))
           "__proto__" twoBoxes eq_refl eq_refl).
Defined.

(** ** Physics integration *)

Lemma updateObject_static (deltaTime : Q) (e : Engine.t) (i : nat)
    (obj : GameObject.t) :
  deref e i = Some obj -> GameObject.isStatic obj = true ->
  updateObject deltaTime e i = e.
Proof.
  unfold deref, updateObject. intros -> ->. reflexivity.
Qed.

Lemma updateObject_absent (deltaTime : Q) (e : Engine.t) (i : nat) :
  deref e i = None -> updateObject deltaTime e i = e.
Proof.
  unfold deref, updateObject. intros ->. reflexivity.
Qed.

Lemma updateObject_moving (deltaTime : Q) (e : Engine.t) (i : nat)
    (obj : GameObject.t) :
  deref e i = Some obj -> GameObject.isStatic obj = false ->
  updateObject deltaTime e i =
  Engine.set_calls
    (Engine.calls e ++ dispatched "hitBoundary" (VObject i) e)
    (Engine.store i (GameObject.syncElement (moved deltaTime e i obj)) e).
Proof.
  unfold deref, updateObject. intros -> ->.
  fold (moved deltaTime e i obj).
  rewrite (emit_returns "hitBoundary") by reflexivity.
  unfold Engine.store, dispatched. cbn.
  rewrite list_insert_insert_eq. reflexivity.
Qed.

Lemma preserved_refl (e : Engine.t) : preserved e e.
Proof. constructor; auto. Qed.

Lemma preserved_trans (e1 e2 e3 : Engine.t) :
  preserved e1 e2 -> preserved e2 e3 -> preserved e1 e3.
Proof.
  intros [] []. constructor; try congruence; auto.
Qed.

Lemma updateObject_other (deltaTime : Q) (e : Engine.t) (i k : nat) :
  k <> i -> deref (updateObject deltaTime e i) k = deref e k.
Proof.
  intros Hne. destruct (deref e i) as [obj |] eqn:Hi.
  - destruct (GameObject.isStatic obj) eqn:Hs.
    + rewrite (updateObject_static _ _ _ _ Hi Hs). reflexivity.
    + rewrite (updateObject_moving _ _ _ _ Hi Hs). unfold deref. cbn.
      apply list_lookup_insert_ne. congruence.
  - rewrite (updateObject_absent _ _ _ Hi). reflexivity.
Qed.

Lemma updateObject_preserved (deltaTime : Q) (e : Engine.t) (i : nat) :
  preserved e (updateObject deltaTime e i).
Proof.
  destruct (deref e i) as [obj |] eqn:Hi.
  - destruct (GameObject.isStatic obj) eqn:Hs.
    + rewrite (updateObject_static _ _ _ _ Hi Hs). apply preserved_refl.
    + rewrite (updateObject_moving _ _ _ _ Hi Hs).
      constructor; try reflexivity.
      * cbn. apply length_insert.
      * intros k o Hk Hstatic. unfold deref in *. cbn.
        rewrite list_lookup_insert_ne; [assumption |].
        intros ->. congruence.
  - rewrite (updateObject_absent _ _ _ Hi). apply preserved_refl.
Qed.

Lemma updateObject_trace (deltaTime : Q) (e : Engine.t) (i : nat) :
  Engine.calls (updateObject deltaTime e i) =
  Engine.calls e ++ hitBoundaryCalls e i.
Proof.
  unfold hitBoundaryCalls. destruct (deref e i) as [obj |] eqn:Hi.
  - destruct (GameObject.isStatic obj) eqn:Hs.
    + rewrite (updateObject_static _ _ _ _ Hi Hs), app_nil_r. reflexivity.
    + rewrite (updateObject_moving _ _ _ _ Hi Hs). reflexivity.
  - rewrite (updateObject_absent _ _ _ Hi), app_nil_r. reflexivity.
Qed.

Lemma hitBoundaryCalls_ext (e e' : Engine.t) (k : nat) :
  deref e' k = deref e k ->
  Engine.eventListeners e' = Engine.eventListeners e ->
  hitBoundaryCalls e' k = hitBoundaryCalls e k.
Proof.
  unfold hitBoundaryCalls, dispatched. intros -> ->. reflexivity.
Qed.

Lemma flat_map_ext_in {A B : Type} (f g : A -> list B) (l : list A) :
  (forall a : A, In a l -> f a = g a) -> flat_map f l = flat_map g l.
Proof.
  induction l as [| a l IH]; intros Hfg; cbn; [reflexivity |].
  rewrite (Hfg a (or_introl eq_refl)), IH; [reflexivity |].
  intros b Hb. apply Hfg. right. exact Hb.
Qed.

Lemma update_fold (deltaTime : Q) (l : list nat) :
  NoDup l ->
  forall e : Engine.t,
    preserved e (fold_left (updateObject deltaTime) l e) /\
    (forall k : nat, ~ In k l ->
       deref (fold_left (updateObject deltaTime) l e) k = deref e k) /\
    Engine.calls (fold_left (updateObject deltaTime) l e) =
      Engine.calls e ++ flat_map (hitBoundaryCalls e) l.
Proof.
  induction 1 as [| i l Hnotin Hnodup IH]; intros e; cbn [fold_left flat_map].
  - split; [apply preserved_refl |]. split; [reflexivity |].
    rewrite app_nil_r. reflexivity.
  - destruct (IH (updateObject deltaTime e i)) as (Hpres & Hother & Hcalls).
    split; [| split].
    + eapply preserved_trans; [apply updateObject_preserved | exact Hpres].
    + intros k Hk. rewrite Hother by (intros Hin; apply Hk; right; exact Hin).
      apply updateObject_other. intros ->. apply Hk. left. reflexivity.
    + rewrite Hcalls, updateObject_trace, <- app_assoc.
      f_equal. f_equal.
      apply flat_map_ext_in. intros k Hk.
      apply hitBoundaryCalls_ext.
      * apply updateObject_other. intros ->. apply Hnotin.
        apply list_elem_of_In. exact Hk.
      * apply (preserved_eventListeners _ _
                 (updateObject_preserved deltaTime e i)).
Qed.

Lemma flat_map_filter {A B : Type} (p : A -> bool) (f : A -> list B)
    (l : list A) :
  flat_map (fun a => if p a then f a else []) l = flat_map f (List.filter p l).
Proof.
  induction l as [| a l IH]; cbn; [reflexivity |].
  rewrite IH. destruct (p a); reflexivity.
Qed.

Lemma update_preserved (deltaTime : Q) (e : Engine.t) :
  preserved e (update deltaTime e).
Proof.
  unfold update.
  apply (update_fold deltaTime _
           (NoDup_seq 0 (length (Engine.gameObjects e))) e).
Qed.

(** C6: one call of [update] emits [hitBoundary] once for each non-static
  object, in registry order and whatever its position, and never for a static
  object: the calls made are exactly those of one [emit] per non-static
  reference. *)
Theorem update_hitBoundary (deltaTime : Q) (e : Engine.t) :
  Engine.calls (update deltaTime e) =
    Engine.calls e ++
    flat_map (fun i => dispatched "hitBoundary" (VObject i) e) (movable e) /\
  NoDup (movable e) /\
  (forall i : nat,
     In i (movable e) <->
     exists obj : GameObject.t,
       deref e i = Some obj /\ GameObject.isStatic obj = false).
Proof.
  split; [| split].
  - unfold update.
    destruct (update_fold deltaTime _
                (NoDup_seq 0 (length (Engine.gameObjects e))) e)
      as (_ & _ & ->).
    f_equal. unfold movable. rewrite <- flat_map_filter.
    apply flat_map_ext_in. intros i _. unfold hitBoundaryCalls.
    destruct (deref e i) as [obj |]; [| reflexivity].
    destruct (GameObject.isStatic obj); reflexivity.
  - unfold movable. apply NoDup_ListNoDup, List.NoDup_filter, List.seq_NoDup.
  - intros i. unfold movable. rewrite List.filter_In, List.in_seq.
    split.
    + intros [_ Hp]. destruct (deref e i) as [obj |]; [| discriminate].
      exists obj. split; [reflexivity |].
      apply negb_true_iff. exact Hp.
    + intros (obj & Hi & Hs). rewrite Hi, Hs. split; [| reflexivity].
      apply lookup_lt_Some in Hi. lia.
Qed.

Lemma update_hitBoundary_witness :
  In 1%nat (movable twoBoxes) /\
  Engine.calls
    (update 16 (Completion.state (on "hitBoundary" (fn "f") twoBoxes))) =
  [call (fn "f") [VObject 1]].
Proof.
  split.
  - apply (proj2 (proj2 (update_hitBoundary 16 twoBoxes))).
    eexists. split; reflexivity.
  - rewrite (proj1 (update_hitBoundary 16
                      (Completion.state
                         (on "hitBoundary" (fn "f") twoBoxes)))).
    reflexivity.
Defined.

(** ** Static objects *)

Lemma resolveCollision_static_fst (obj1 obj2 : GameObject.t)
    (data : CollisionData.t) :
  GameObject.isStatic obj1 = true ->
  fst (resolveCollision obj1 obj2 data) =
  if GameObject.isStatic obj2 then obj1 else GameObject.syncElement obj1.
Proof.
  intros Hs. unfold resolveCollision, unlessStatic. rewrite Hs.
  destruct (GameObject.isStatic obj2); cbn [andb]; [reflexivity |].
  destruct (CollisionData.direction data); cbn; rewrite Hs; reflexivity.
Qed.

Lemma resolveCollision_static_snd (obj1 obj2 : GameObject.t)
    (data : CollisionData.t) :
  GameObject.isStatic obj2 = true ->
  snd (resolveCollision obj1 obj2 data) =
  if GameObject.isStatic obj1 then obj2 else GameObject.syncElement obj2.
Proof.
  intros Hs. unfold resolveCollision, unlessStatic. rewrite Hs.
  destruct (GameObject.isStatic obj1); cbn [andb]; [reflexivity |].
  destruct (CollisionData.direction data); cbn; rewrite Hs; reflexivity.
Qed.

Lemma sameButElement_refl (obj : GameObject.t) : sameButElement obj obj.
Proof. unfold sameButElement. destruct obj; reflexivity. Qed.

Lemma sameButElement_sync (obj : GameObject.t) :
  sameButElement obj (GameObject.syncElement obj).
Proof. unfold sameButElement. destruct obj; reflexivity. Qed.

(** C4: a static object is never moved.  [update], for any [deltaTime],
  leaves every static object exactly as it was, together with the length of
  the registry, the subscriptions, the timers, the clock and the scene size.
  [resolveCollision] leaves the position, the velocity and every other
  property of a static argument as they were; of its DOM element it at most
  rewrites the inline [left] and [top] with the unchanged [x] and [y]. *)
Theorem static_never_moved (deltaTime : Q) (e : Engine.t)
    (obj1 obj2 : GameObject.t) (data : CollisionData.t) :
  (forall (i : nat) (obj : GameObject.t),
     deref e i = Some obj -> GameObject.isStatic obj = true ->
     deref (update deltaTime e) i = Some obj) /\
  preserved e (update deltaTime e) /\
  (GameObject.isStatic obj1 = true ->
     let obj1' := fst (resolveCollision obj1 obj2 data) in
     GameObject.x obj1' = GameObject.x obj1 /\
     GameObject.y obj1' = GameObject.y obj1 /\
     GameObject.velocityX obj1' = GameObject.velocityX obj1 /\
     GameObject.velocityY obj1' = GameObject.velocityY obj1 /\
     sameButElement obj1 obj1' /\
     (GameObject.element obj1' = GameObject.element obj1 \/
      GameObject.element obj1' =
      GameObject.element (GameObject.syncElement obj1))) /\
  (GameObject.isStatic obj2 = true ->
     let obj2' := snd (resolveCollision obj1 obj2 data) in
     GameObject.x obj2' = GameObject.x obj2 /\
     GameObject.y obj2' = GameObject.y obj2 /\
     GameObject.velocityX obj2' = GameObject.velocityX obj2 /\
     GameObject.velocityY obj2' = GameObject.velocityY obj2 /\
     sameButElement obj2 obj2' /\
     (GameObject.element obj2' = GameObject.element obj2 \/
      GameObject.element obj2' =
      GameObject.element (GameObject.syncElement obj2))).
Proof.
  split; [| split; [| split]].
  - intros i obj Hi Hs.
    apply (preserved_static _ _ (update_preserved deltaTime e) i obj Hi Hs).
  - apply update_preserved.
  - intros Hs. cbn zeta. rewrite (resolveCollision_static_fst _ _ _ Hs).
    destruct (GameObject.isStatic obj2).
    + do 4 (split; [reflexivity |]).
      split; [apply sameButElement_refl | left; reflexivity].
    + do 4 (split; [reflexivity |]).
      split; [apply sameButElement_sync | right; reflexivity].
  - intros Hs. cbn zeta. rewrite (resolveCollision_static_snd _ _ _ Hs).
    destruct (GameObject.isStatic obj1).
    + do 4 (split; [reflexivity |]).
      split; [apply sameButElement_refl | left; reflexivity].
    + do 4 (split; [reflexivity |]).
      split; [apply sameButElement_sync | right; reflexivity].
Qed.

Lemma static_never_moved_witness :
  (exists obj : GameObject.t,
     deref twoBoxes 0 = Some obj /\ GameObject.isStatic obj = true /\
     deref (update 16 twoBoxes) 0 = Some obj) /\
  GameObject.x
    (fst (resolveCollision (box "a" 1 1 50 50 true) (box "b" 41 1 50 50 false)
            (getCollisionData (box "a" 1 1 50 50 true)
                              (box "b" 41 1 50 50 false)))) = 1 /\
  GameObject.x
    (snd (resolveCollision (box "b" 41 1 50 50 false) (box "a" 1 1 50 50 true)
            (getCollisionData (box "b" 41 1 50 50 false)
                              (box "a" 1 1 50 50 true)))) = 1.
Proof.
  split; [| split].
  - eexists. split; [reflexivity |]. split; [reflexivity |].
    apply (proj1 (static_never_moved 16 twoBoxes
                    (box "a" 1 1 50 50 true) (box "b" 41 1 50 50 false)
                    (getCollisionData (box "a" 1 1 50 50 true)
                                      (box "b" 41 1 50 50 false))));
      reflexivity.
  - apply (proj1 (proj2 (proj2 (static_never_moved 16 twoBoxes
                    (box "a" 1 1 50 50 true) (box "b" 41 1 50 50 false)
                    (getCollisionData (box "a" 1 1 50 50 true)
                                      (box "b" 41 1 50 50 false)))))).
    reflexivity.
  - apply (proj2 (proj2 (proj2 (static_never_moved 16 twoBoxes
                    (box "b" 41 1 50 50 false) (box "a" 1 1 50 50 true)
                    (getCollisionData (box "b" 41 1 50 50 false)
                                      (box "a" 1 1 50 50 true)))))).
    reflexivity.
Defined.

(** ** Gravity *)

Lemma isOnGround_applyAutoMove (e : Engine.t) (i : nat) (obj : GameObject.t) :
  isOnGround e i (applyAutoMove obj) = isOnGround e i obj.
Proof.
  unfold applyAutoMove. destruct (GameObject.autoMove obj); reflexivity.
Qed.

Lemma reached_other (deltaTime : Q) (e : Engine.t) (i : nat) :
  deref (reached deltaTime e i) i = deref e i /\
  preserved e (reached deltaTime e i).
Proof.
  unfold reached.
  destruct (update_fold deltaTime _ (NoDup_seq 0 i) e) as (Hp & Ho & _).
  split; [| exact Hp].
  apply Ho. rewrite List.in_seq. lia.
Qed.

Lemma update_moving (deltaTime : Q) (e : Engine.t) (i : nat)
    (obj : GameObject.t) :
  deref e i = Some obj -> GameObject.isStatic obj = false ->
  deref (update deltaTime e) i =
  Some (GameObject.syncElement
          (moved deltaTime (reached deltaTime e i) i obj)).
Proof.
  intros Hi Hs.
  pose proof (lookup_lt_Some _ _ _ Hi) as Hlt.
  destruct (reached_other deltaTime e i) as (Hsame & Hpres).
  unfold update.
  replace (length (Engine.gameObjects e))
    with (i + (1 + (length (Engine.gameObjects e) - S i)))%nat by lia.
  rewrite !List.seq_app, !fold_left_app. cbn [seq fold_left].
  fold (reached deltaTime e i).
  destruct (update_fold deltaTime
              (seq (0 + i + 1) (length (Engine.gameObjects e) - S i))
              (NoDup_seq _ _)
              (updateObject deltaTime (reached deltaTime e i) i))
    as (_ & Hrest & _).
  rewrite Hrest by (rewrite List.in_seq; lia).
  rewrite (updateObject_moving deltaTime (reached deltaTime e i) i obj)
    by (rewrite ?Hsame; assumption).
  unfold deref. cbn.
  apply list_lookup_insert_eq.
  rewrite (preserved_length _ _ Hpres). exact Hlt.
Qed.

(** C7: for a non-static object that requires ground and is not on ground
  when [update] reaches it, [update 500] adds exactly 500 to the vertical
  velocity the gravity step finds (the object's own, or [autoMove.y] when
  [autoMove] has just overwritten it), and the position is then integrated
  with the increased velocity. *)
Theorem update_gravity (e : Engine.t) (i : nat) (obj : GameObject.t) :
  deref e i = Some obj ->
  GameObject.isStatic obj = false ->
  GameObject.requireGround obj = true ->
  isOnGround (reached 500 e i) i obj = false ->
  exists obj' : GameObject.t,
    deref (update 500 e) i = Some obj' /\
    GameObject.velocityY obj' ==
      GameObject.velocityY (applyAutoMove obj) + 500 /\
    (GameObject.autoMove obj = None ->
       GameObject.velocityY obj' == GameObject.velocityY obj + 500) /\
    GameObject.y obj' =
      GameObject.y obj + GameObject.velocityY obj' * (500 / 1000).
Proof.
  intros Hi Hs Hr Hg.
  eexists. split; [apply (update_moving 500 e i obj Hi Hs) |].
  assert (Hstep :
    applyGravity 500 (reached 500 e i) i (applyAutoMove obj) =
    GameObject.set_velocityY
      (GameObject.velocityY (applyAutoMove obj) + 500 * (500 / 500))
      (applyAutoMove obj)).
  { unfold applyGravity. rewrite isOnGround_applyAutoMove, Hg.
    replace (GameObject.requireGround (applyAutoMove obj)) with true;
      [reflexivity |].
    rewrite <- Hr. unfold applyAutoMove.
    destruct (GameObject.autoMove obj); reflexivity. }
  unfold moved. rewrite Hstep.
  split; [| split].
  - cbn. field.
  - intros Hnone. unfold applyAutoMove. rewrite Hnone. cbn. field.
  - unfold applyAutoMove.
    destruct (GameObject.autoMove obj); reflexivity.
Qed.

Lemma update_gravity_witness :
  exists obj obj' : GameObject.t,
    deref airborne 1 = Some obj /\
    deref (update 500 airborne) 1 = Some obj' /\
    GameObject.velocityY obj' == GameObject.velocityY obj + 500 /\
    GameObject.y obj' == 260.
Proof.
  destruct (update_gravity airborne 1
              (GameObject.mk "player"
                 (Element.mk (px 10) (px 10) (px 20) (px 20) 0 0)
                 10 10 20 20 0 0 None false false true String.EmptyString
                 None false)
              eq_refl eq_refl eq_refl eq_refl)
    as (obj' & Hobj' & _ & Hvy & Hy).
  eexists. exists obj'.
  split; [reflexivity |]. split; [exact Hobj' |].
  split; [apply Hvy; reflexivity |].
  rewrite Hy. cbn [GameObject.y]. rewrite (Hvy eq_refl).
  reflexivity.
Defined.

(** ** Object creation *)

Lemma createGameObject_deref (elementId : string) (element : Element.t)
    (options : Options.t) (e : Engine.t) :
  exists obj : GameObject.t,
    deref (snd (createGameObject elementId element options e))
          (fst (createGameObject elementId element options e)) = Some obj /\
    GameObject.velocityX obj = 0 /\
    GameObject.velocityY obj = 0 /\
    GameObject.autoMove obj = Options.autoMove options /\
    GameObject.isStatic obj = Options.isStatic options.
Proof.
  unfold createGameObject, deref. cbn [GameObject.isPlayerControlled].
  destruct (Options.isPlayerControlled options); cbn [fst snd];
    (eexists; split; [apply list_lookup_middle; reflexivity | repeat split]).
Qed.

(** C10: whatever the identifier and the options, the object
  [createGameObject] registers and returns starts with both velocity
  components at 0.  [autoMove] is only stored at creation; it is the next
  [update] that copies it into the velocity of a non-static object. *)
Theorem createGameObject_velocity (elementId : string) (element : Element.t)
    (options : Options.t) (e : Engine.t) :
  let ref := fst (createGameObject elementId element options e) in
  let e' := snd (createGameObject elementId element options e) in
  exists obj : GameObject.t,
    deref e' ref = Some obj /\
    GameObject.velocityX obj = 0 /\
    GameObject.velocityY obj = 0 /\
    GameObject.autoMove obj = Options.autoMove options /\
    (forall (deltaTime : Q) (autoMove : AutoMove.t),
       Options.autoMove options = Some autoMove ->
       Options.isStatic options = false ->
       exists obj' : GameObject.t,
         deref (update deltaTime e') ref = Some obj' /\
         GameObject.velocityX obj' = AutoMove.x autoMove).
Proof.
  cbn zeta.
  destruct (createGameObject_deref elementId element options e)
    as (obj & Href & Hvx & Hvy & Hauto & Hstatic).
  exists obj. do 4 (split; [assumption |]).
  intros deltaTime autoMove Ha Hs.
  eexists. split.
  - apply (update_moving deltaTime _ _ obj Href). congruence.
  - unfold moved, applyGravity, applyAutoMove.
    rewrite Hauto, Ha.
    match goal with |- context [if ?c then _ else _] => destruct c end;
      reflexivity.
Qed.

Lemma createGameObject_velocity_witness :
  exists obj' : GameObject.t,
    deref
      (update 16
         (snd (createGameObject "c" freshDiv
                 (Options.mk (Some 5) (Some 5) (Some 10) (Some 10)
                             (Some (AutoMove.mk 30 0)) false false false
                             None None)
                 twoBoxes))) 2 = Some obj' /\
    GameObject.velocityX obj' = 30.
Proof.
  destruct (createGameObject_velocity "c" freshDiv
              (Options.mk (Some 5) (Some 5) (Some 10) (Some 10)
                          (Some (AutoMove.mk 30 0)) false false false
                          None None)
              twoBoxes) as (obj & _ & _ & _ & _ & Hupdate).
  apply (Hupdate 16 (AutoMove.mk 30 0)); reflexivity.
Defined.

(** ** Collision pass *)

Lemma resolveCollision_onCollision (obj1 obj2 : GameObject.t)
    (data : CollisionData.t) :
  GameObject.onCollision (fst (resolveCollision obj1 obj2 data)) =
    GameObject.onCollision obj1 /\
  GameObject.onCollision (snd (resolveCollision obj1 obj2 data)) =
    GameObject.onCollision obj2.
Proof.
  unfold resolveCollision, unlessStatic.
  destruct (GameObject.isStatic obj1) eqn:Hs1,
           (GameObject.isStatic obj2) eqn:Hs2,
           (CollisionData.direction data);
    cbn; rewrite ?Hs1, ?Hs2; split; reflexivity.
Qed.

Lemma collidePair_hit (e : Engine.t) (i j : nat) (obj1 obj2 : GameObject.t) :
  deref e i = Some obj1 -> deref e j = Some obj2 ->
  isColliding (GameObject.rect obj1) (GameObject.rect obj2) = true ->
  collidePair e i j =
  Engine.set_calls
    (Engine.calls e ++
     collisionCalls e i j (GameObject.onCollision obj1)
       (GameObject.onCollision obj2) (getCollisionData obj1 obj2))
    (Engine.store j
       (snd (resolveCollision obj1 obj2 (getCollisionData obj1 obj2)))
       (Engine.store i
          (fst (resolveCollision obj1 obj2 (getCollisionData obj1 obj2)))
          e)).
Proof.
  unfold deref, collidePair. intros -> -> ->.
  destruct (resolveCollision_onCollision obj1 obj2
              (getCollisionData obj1 obj2)) as (H1 & H2).
  destruct (resolveCollision obj1 obj2 (getCollisionData obj1 obj2))
    as [p1 p2].
  cbn [fst snd] in *. rewrite H1, H2, emit_calls.
  unfold collisionCalls, dispatched.
  destruct (GameObject.onCollision obj1), (GameObject.onCollision obj2);
    cbn; rewrite <- ?app_assoc; reflexivity.
Qed.

Lemma collidePair_miss (e : Engine.t) (i j : nat) :
  (forall obj1 obj2 : GameObject.t,
     deref e i = Some obj1 -> deref e j = Some obj2 ->
     isColliding (GameObject.rect obj1) (GameObject.rect obj2) = false) ->
  collidePair e i j = e.
Proof.
  unfold deref, collidePair. intros Hmiss.
  destruct (Engine.gameObjects e !! i) as [obj1 |]; [| reflexivity].
  destruct (Engine.gameObjects e !! j) as [obj2 |]; [| reflexivity].
  rewrite (Hmiss obj1 obj2 eq_refl eq_refl). reflexivity.
Qed.

Lemma sameButElement_fields (obj obj' : GameObject.t) :
  sameButElement obj obj' ->
  GameObject.x obj' = GameObject.x obj /\
  GameObject.y obj' = GameObject.y obj /\
  GameObject.velocityX obj' = GameObject.velocityX obj /\
  GameObject.velocityY obj' = GameObject.velocityY obj /\
  GameObject.isStatic obj' = GameObject.isStatic obj /\
  GameObject.onCollision obj' = GameObject.onCollision obj /\
  GameObject.rect obj' = GameObject.rect obj.
Proof.
  unfold sameButElement. intros ->. repeat split.
Qed.

Lemma sameButElement_trans (obj1 obj2 obj3 : GameObject.t) :
  sameButElement obj1 obj2 -> sameButElement obj2 obj3 ->
  sameButElement obj1 obj3.
Proof.
  unfold sameButElement. intros H12 H23. rewrite H23, H12. reflexivity.
Qed.

Lemma sameButElement_getCollisionData (obj1 obj1' obj2 obj2' : GameObject.t) :
  sameButElement obj1 obj1' -> sameButElement obj2 obj2' ->
  getCollisionData obj1' obj2' = getCollisionData obj1 obj2.
Proof.
  unfold sameButElement. intros -> ->. reflexivity.
Qed.

Lemma settled_refl (e : Engine.t) : settled e e.
Proof.
  constructor; try reflexivity.
  - intros k obj Hk _. exists obj. split; [exact Hk |].
    apply sameButElement_refl.
  - exists []. rewrite app_nil_r. reflexivity.
Qed.

Lemma settled_trans (e1 e2 e3 : Engine.t) :
  settled e1 e2 -> settled e2 e3 -> settled e1 e3.
Proof.
  intros [Hl12 Hs12 He12 [m12 Hc12]] [Hl23 Hs23 He23 [m23 Hc23]].
  constructor; try congruence.
  - intros k obj Hk Hs.
    destruct (Hs12 k obj Hk Hs) as (obj2 & Hk2 & Hsame2).
    destruct (sameButElement_fields _ _ Hsame2) as (_ & _ & _ & _ & Hs2 & _).
    destruct (Hs23 k obj2 Hk2 ltac:(congruence)) as (obj3 & Hk3 & Hsame3).
    exists obj3. split; [exact Hk3 |].
    eapply sameButElement_trans; eassumption.
  - exists (m12 ++ m23). rewrite Hc23, Hc12, app_assoc. reflexivity.
Qed.

Lemma collidePair_settled (e : Engine.t) (i j : nat) :
  i <> j -> settled e (collidePair e i j).
Proof.
  intros Hij.
  destruct (deref e i) as [obj1 |] eqn:Hi;
    [| rewrite collidePair_miss; [apply settled_refl | congruence]].
  destruct (deref e j) as [obj2 |] eqn:Hj;
    [| rewrite collidePair_miss; [apply settled_refl | congruence]].
  destruct (isColliding (GameObject.rect obj1) (GameObject.rect obj2))
    eqn:Hhit;
    [| rewrite collidePair_miss; [apply settled_refl | congruence]].
  rewrite (collidePair_hit e i j obj1 obj2 Hi Hj Hhit).
  pose proof (lookup_lt_Some _ _ _ Hi) as Hlti.
  pose proof (lookup_lt_Some _ _ _ Hj) as Hltj.
  constructor.
  - cbn. rewrite !length_insert. reflexivity.
  - intros k obj Hk Hs. unfold deref in *. cbn.
    destruct (decide (k = j)) as [-> | Hkj].
    + rewrite list_lookup_insert_eq by (rewrite length_insert; exact Hltj).
      eexists. split; [reflexivity |].
      assert (obj = obj2) as -> by congruence.
      rewrite (resolveCollision_static_snd _ _ _ Hs).
      destruct (GameObject.isStatic obj1);
        [apply sameButElement_refl | apply sameButElement_sync].
    + rewrite list_lookup_insert_ne by congruence.
      destruct (decide (k = i)) as [-> | Hki].
      * rewrite list_lookup_insert_eq by exact Hlti.
        eexists. split; [reflexivity |].
        assert (obj = obj1) as -> by congruence.
        rewrite (resolveCollision_static_fst _ _ _ Hs).
        destruct (GameObject.isStatic obj2);
          [apply sameButElement_refl | apply sameButElement_sync].
      * rewrite list_lookup_insert_ne by congruence.
        exists obj. split; [exact Hk | apply sameButElement_refl].
  - reflexivity.
  - eexists. reflexivity.
Qed.

Lemma fold_settled (step : Engine.t -> nat -> Engine.t) (l : list nat) :
  (forall (e : Engine.t) (k : nat), In k l -> settled e (step e k)) ->
  forall e : Engine.t, settled e (fold_left step l e).
Proof.
  induction l as [| k l IH]; intros Hstep e; cbn [fold_left].
  - apply settled_refl.
  - eapply settled_trans.
    + apply Hstep. left. reflexivity.
    + apply IH. intros e' k' Hin. apply Hstep. right. exact Hin.
Qed.

Lemma collideRow_part_settled (i start len : nat) (e : Engine.t) :
  (i < start)%nat ->
  settled e (fold_left (fun e j => collidePair e i j) (seq start len) e).
Proof.
  intros Hlt. apply fold_settled. intros e' k Hin.
  apply List.in_seq in Hin. apply collidePair_settled. lia.
Qed.

Lemma collideRow_settled (n : nat) (e : Engine.t) (i : nat) :
  settled e (collideRow n e i).
Proof.
  unfold collideRow. apply collideRow_part_settled. lia.
Qed.

Lemma checkCollisions_settled (e : Engine.t) : settled e (checkCollisions e).
Proof.
  unfold checkCollisions. apply fold_settled.
  intros e' k _. apply collideRow_settled.
Qed.

Lemma seq_split_at (start len k : nat) :
  (k < len)%nat ->
  seq start len = seq start k ++ (start + k)%nat :: seq (S (start + k)) (len - S k).
Proof.
  intros Hk.
  transitivity (seq start (k + S (len - S k))); [f_equal; lia |].
  rewrite List.seq_app. reflexivity.
Qed.

Lemma collisionCalls_settled (e e' : Engine.t) (i j : nat)
    (obj1 obj1' obj2 obj2' : GameObject.t) :
  settled e e' -> sameButElement obj1 obj1' -> sameButElement obj2 obj2' ->
  collisionCalls e' i j (GameObject.onCollision obj1')
    (GameObject.onCollision obj2') (getCollisionData obj1' obj2') =
  collisionCalls e i j (GameObject.onCollision obj1)
    (GameObject.onCollision obj2) (getCollisionData obj1 obj2).
Proof.
  intros Hset H1 H2.
  rewrite (sameButElement_getCollisionData _ _ _ _ H1 H2).
  destruct (sameButElement_fields _ _ H1) as (_ & _ & _ & _ & _ & -> & _).
  destruct (sameButElement_fields _ _ H2) as (_ & _ & _ & _ & _ & -> & _).
  unfold collisionCalls, dispatched.
  rewrite (settled_eventListeners _ _ Hset). reflexivity.
Qed.

Lemma collidePair_static_pair (e : Engine.t) (i j : nat)
    (obj1 obj2 : GameObject.t) :
  deref e i = Some obj1 -> deref e j = Some obj2 ->
  GameObject.isStatic obj1 = true -> GameObject.isStatic obj2 = true ->
  isColliding (GameObject.rect obj1) (GameObject.rect obj2) = true ->
  Engine.gameObjects (collidePair e i j) = Engine.gameObjects e /\
  Engine.calls (collidePair e i j) =
    Engine.calls e ++
    collisionCalls e i j (GameObject.onCollision obj1)
      (GameObject.onCollision obj2) (getCollisionData obj1 obj2).
Proof.
  intros Hi Hj Hs1 Hs2 Hhit.
  rewrite (collidePair_hit e i j obj1 obj2 Hi Hj Hhit).
  split; [| reflexivity].
  unfold resolveCollision. rewrite Hs1, Hs2. cbn.
  unfold deref in *.
  rewrite (list_insert_id _ i obj1 Hi). apply list_insert_id. exact Hj.
Qed.

(** The part of one row of the pass that concerns a colliding static
  pair. *)
Lemma collideRow_static_pair (n : nat) (e : Engine.t) (i j : nat)
    (obj1 obj2 : GameObject.t) :
  (i < j < n)%nat ->
  deref e i = Some obj1 -> deref e j = Some obj2 ->
  GameObject.isStatic obj1 = true -> GameObject.isStatic obj2 = true ->
  isColliding (GameObject.rect obj1) (GameObject.rect obj2) = true ->
  exists before after : list Call,
    Engine.calls (collideRow n e i) =
    Engine.calls e ++ before ++
    collisionCalls e i j (GameObject.onCollision obj1)
      (GameObject.onCollision obj2) (getCollisionData obj1 obj2) ++ after.
Proof.
  intros Hij Hi Hj Hs1 Hs2 Hhit.
  unfold collideRow.
  rewrite (seq_split_at (i + 1) (n - (i + 1)) (j - (i + 1))) by lia.
  rewrite fold_left_app. cbn [fold_left].
  replace (i + 1 + (j - (i + 1)))%nat with j by lia.
  set (e1 := fold_left (fun e j => collidePair e i j)
               (seq (i + 1) (j - (i + 1))) e).
  assert (Hset1 : settled e e1) by (apply collideRow_part_settled; lia).
  destruct (settled_static _ _ Hset1 i obj1 Hi Hs1) as (p1 & Hp1 & Hsame1).
  destruct (settled_static _ _ Hset1 j obj2 Hj Hs2) as (p2 & Hp2 & Hsame2).
  destruct (settled_calls _ _ Hset1) as (before & Hbefore).
  destruct (sameButElement_fields _ _ Hsame1)
    as (_ & _ & _ & _ & Hps1 & _ & Hrect1).
  destruct (sameButElement_fields _ _ Hsame2)
    as (_ & _ & _ & _ & Hps2 & _ & Hrect2).
  destruct (collidePair_static_pair e1 i j p1 p2 Hp1 Hp2)
    as (_ & Hcalls); try congruence.
  rewrite (collisionCalls_settled e e1 i j obj1 p1 obj2 p2) in Hcalls
    by assumption.
  match goal with
  | |- context [fold_left ?f (seq ?a ?b) (collidePair e1 i j)] =>
      destruct (settled_calls _ _
                  (collideRow_part_settled i a b (collidePair e1 i j)
                     ltac:(lia))) as (after & Hafter)
  end.
  exists before, after.
  rewrite Hafter, Hcalls, Hbefore, <- !app_assoc. reflexivity.
Qed.

Lemma checkCollisions_static_pair_calls (e : Engine.t) (i j : nat)
    (obj1 obj2 : GameObject.t) :
  (i < j)%nat ->
  deref e i = Some obj1 -> deref e j = Some obj2 ->
  GameObject.isStatic obj1 = true -> GameObject.isStatic obj2 = true ->
  isColliding (GameObject.rect obj1) (GameObject.rect obj2) = true ->
  exists before after : list Call,
    Engine.calls (checkCollisions e) =
    Engine.calls e ++ before ++
    collisionCalls e i j (GameObject.onCollision obj1)
      (GameObject.onCollision obj2) (getCollisionData obj1 obj2) ++ after.
Proof.
  intros Hij Hi Hj Hs1 Hs2 Hhit.
  pose proof (lookup_lt_Some _ _ _ Hj) as Hltj.
  unfold checkCollisions. cbn zeta.
  set (n := length (Engine.gameObjects e)) in *.
  rewrite (seq_split_at 0 n i) by lia.
  rewrite fold_left_app. cbn [fold_left].
  change (0 + i)%nat with i.
  set (e1 := fold_left (collideRow n) (seq 0 i) e).
  assert (Hset1 : settled e e1).
  { apply fold_settled. intros e' k _. apply collideRow_settled. }
  destruct (settled_static _ _ Hset1 i obj1 Hi Hs1) as (p1 & Hp1 & Hsame1).
  destruct (settled_static _ _ Hset1 j obj2 Hj Hs2) as (p2 & Hp2 & Hsame2).
  destruct (settled_calls _ _ Hset1) as (m1 & Hm1).
  destruct (sameButElement_fields _ _ Hsame1)
    as (_ & _ & _ & _ & Hps1 & _ & Hrect1).
  destruct (sameButElement_fields _ _ Hsame2)
    as (_ & _ & _ & _ & Hps2 & _ & Hrect2).
  destruct (collideRow_static_pair n e1 i j p1 p2) as (m2 & m3 & Hrow);
    try congruence; [lia |].
  rewrite (collisionCalls_settled e e1 i j obj1 p1 obj2 p2) in Hrow
    by assumption.
  match goal with
  | |- context [fold_left (collideRow n) ?l (collideRow n e1 i)] =>
      assert (Hset3 : settled (collideRow n e1 i)
                        (fold_left (collideRow n) l (collideRow n e1 i)))
        by (apply fold_settled; intros e' k _; apply collideRow_settled)
  end.
  destruct (settled_calls _ _ Hset3) as (m4 & Hm4).
  exists (m1 ++ m2), (m3 ++ m4).
  rewrite Hm4, Hrow, Hm1, <- !app_assoc. reflexivity.
Qed.

(** C5: for an overlapping pair of static objects, the pair step of
  [checkCollisions] changes no object at all and makes exactly the calls of a
  detected collision: [obj1.onCollision] and [obj2.onCollision] when set,
  then the subscribers of [collision].  Over a whole pass the two objects
  keep their position and velocity, and those calls are part of the calls the
  pass makes. *)
Theorem checkCollisions_static_pair (e : Engine.t) (i j : nat)
    (obj1 obj2 : GameObject.t) :
  (i < j)%nat ->
  deref e i = Some obj1 -> deref e j = Some obj2 ->
  GameObject.isStatic obj1 = true -> GameObject.isStatic obj2 = true ->
  isColliding (GameObject.rect obj1) (GameObject.rect obj2) = true ->
  let data := getCollisionData obj1 obj2 in
  let pairCalls :=
    collisionCalls e i j (GameObject.onCollision obj1)
      (GameObject.onCollision obj2) data in
  resolveCollision obj1 obj2 data = (obj1, obj2) /\
  Engine.gameObjects (collidePair e i j) = Engine.gameObjects e /\
  Engine.calls (collidePair e i j) = Engine.calls e ++ pairCalls /\
  (exists obj1' obj2' : GameObject.t,
     deref (checkCollisions e) i = Some obj1' /\
     deref (checkCollisions e) j = Some obj2' /\
     GameObject.x obj1' = GameObject.x obj1 /\
     GameObject.y obj1' = GameObject.y obj1 /\
     GameObject.velocityX obj1' = GameObject.velocityX obj1 /\
     GameObject.velocityY obj1' = GameObject.velocityY obj1 /\
     GameObject.x obj2' = GameObject.x obj2 /\
     GameObject.y obj2' = GameObject.y obj2 /\
     GameObject.velocityX obj2' = GameObject.velocityX obj2 /\
     GameObject.velocityY obj2' = GameObject.velocityY obj2) /\
  (exists before after : list Call,
     Engine.calls (checkCollisions e) =
     Engine.calls e ++ before ++ pairCalls ++ after) /\
  (forall callback : Callback,
     GameObject.onCollision obj1 = Some callback ->
     In (call callback [VObject j; VCollisionData data]) pairCalls) /\
  (forall callback : Callback,
     GameObject.onCollision obj2 = Some callback ->
     In (call callback [VObject i; VCollisionData data]) pairCalls) /\
  (forall callback : Callback,
     In callback (default [] (Engine.eventListeners e !! "collision")) ->
     In (call callback
           [VCollision i j (CollisionData.overlapX data)
              (CollisionData.overlapY data) (CollisionData.direction data)])
        pairCalls).
Proof.
  intros Hij Hi Hj Hs1 Hs2 Hhit. cbn zeta.
  destruct (collidePair_static_pair e i j obj1 obj2 Hi Hj Hs1 Hs2 Hhit)
    as (Hobjs & Hcalls).
  split; [unfold resolveCollision; rewrite Hs1, Hs2; reflexivity |].
  split; [exact Hobjs |]. split; [exact Hcalls |].
  split; [| split; [| split; [| split]]].
  - pose proof (checkCollisions_settled e) as Hset.
    destruct (settled_static _ _ Hset i obj1 Hi Hs1) as (p1 & Hp1 & Hsame1).
    destruct (settled_static _ _ Hset j obj2 Hj Hs2) as (p2 & Hp2 & Hsame2).
    destruct (sameButElement_fields _ _ Hsame1) as (? & ? & ? & ? & _).
    destruct (sameButElement_fields _ _ Hsame2) as (? & ? & ? & ? & _).
    exists p1, p2. repeat (split; [assumption |]). assumption.
  - apply checkCollisions_static_pair_calls; assumption.
  - intros callback Hcb. unfold collisionCalls. rewrite Hcb.
    apply in_or_app. left. left. reflexivity.
  - intros callback Hcb. unfold collisionCalls. rewrite Hcb.
    apply in_or_app. right. apply in_or_app. left. left. reflexivity.
  - intros callback Hcb. unfold collisionCalls, dispatched.
    apply in_or_app. right. apply in_or_app. right.
    apply (in_map (fun callback => call callback _)). exact Hcb.
Qed.

Lemma checkCollisions_static_pair_witness :
  Engine.gameObjects (checkCollisions staticPair) =
    Engine.gameObjects staticPair /\
  Engine.calls (checkCollisions staticPair) =
    [call (fn "wallHit")
       [VObject 1; VCollisionData (CollisionData.mk 21 31 Direction.left)];
     call (fn "crateHit")
       [VObject 0; VCollisionData (CollisionData.mk 21 31 Direction.left)];
     call (fn "log") [VCollision 0 1 21 31 Direction.left]] /\
  Engine.calls (collidePair staticPair 0 1) =
    Engine.calls (checkCollisions staticPair).
Proof.
  split; [reflexivity |]. split; [reflexivity |].
  destruct (checkCollisions_static_pair staticPair 0 1 wall crate
              ltac:(lia) eq_refl eq_refl eq_refl eq_refl eq_refl)
    as (_ & _ & Hcalls & _).
  rewrite Hcalls. reflexivity.
Defined.

(** ** Resolution *)

(** C1: evaluation of the resolver on a narrow box lying inside a wide one,
  near its left side.  The two boxes intersect and both can move; the
  direction is [left], the depth 3 is measured to the narrow box's far side,
  and the push along that direction leaves a positive overlap of 9 on the
  horizontal axis (6 when the wide box is static), where the claim has no
  residual penetration. *)
Theorem resolveCollision_residual_penetration :
  isColliding (GameObject.rect wide) (GameObject.rect narrow) = true /\
  GameObject.isStatic wide = false /\
  GameObject.isStatic narrow = false /\
  getCollisionData wide narrow = CollisionData.mk 3 100 Direction.left /\
  GameObject.x (fst (resolveCollision wide narrow
                       (getCollisionData wide narrow))) == -3 /\
  GameObject.x (snd (resolveCollision wide narrow
                       (getCollisionData wide narrow))) == 4 /\
  residualOverlap wide narrow == 9 /\
  ~ residualOverlap wide narrow <= 0 /\
  residualOverlap (box "wide" 0 0 100 100 true) narrow == 6.
Proof.
  repeat split; try reflexivity.
  vm_compute. intros H. apply H. reflexivity.
Qed.

(** Where the resolver does separate the pair, in exact arithmetic: whenever
  the reported depth is the one of the side the direction names. *)
Lemma resolveCollision_separates (obj1 obj2 : GameObject.t) :
  isColliding (GameObject.rect obj1) (GameObject.rect obj2) = true ->
  GameObject.isStatic obj1 && GameObject.isStatic obj2 = false ->
  nearSideChosen obj1 obj2 ->
  residualOverlap obj1 obj2 <= 0.
Proof.
  intros Hhit Hmov Hnear.
  apply isColliding_true in Hhit. destruct Hhit as (H1 & H2 & H3 & H4).
  cbn [GameObject.rect Rect.x Rect.y Rect.width Rect.height] in *.
  unfold nearSideChosen, residualOverlap, resolveCollision in *.
  rewrite Hmov.
  destruct (CollisionData.direction (getCollisionData obj1 obj2)) eqn:Hdir;
    unfold getCollisionData, Js.min in *;
    cbn [CollisionData.overlapX CollisionData.overlapY
         CollisionData.direction] in *;
    unfold unlessStatic, overlapX, overlapY, moveX, moveY;
    destruct (GameObject.isStatic obj1) eqn:Hs1,
             (GameObject.isStatic obj2) eqn:Hs2;
    try discriminate; cbn; rewrite ?Hs1, ?Hs2; cbn;
    pose proof (Q.min_l _ _ Hnear) as Hmin;
    pose proof (Q.min_r _ _ Hnear) as Hmin';
    apply Q.min_le_iff; first [left; lra | right; lra].
Qed.

Example resolveCollision_separates_twoBoxes :
  residualOverlap (box "a" 0 0 50 50 true) (box "b" 40 0 50 50 false) <= 0.
Proof.
  apply resolveCollision_separates; [reflexivity | reflexivity |].
  vm_compute. discriminate.
Qed.

(** ** Further properties: object creation *)

Lemma createGameObject_push (elementId : string) (element : Element.t)
    (options : Options.t) (e : Engine.t) :
  exists obj : GameObject.t,
    Engine.gameObjects (snd (createGameObject elementId element options e)) =
      Engine.gameObjects e ++ [obj] /\
    fst (createGameObject elementId element options e) =
      length (Engine.gameObjects e) /\
    GameObject.id obj = elementId /\
    GameObject.x obj = Js.or_else (Options.x options) 0 /\
    GameObject.y obj = Js.or_else (Options.y options) 0 /\
    GameObject.width obj =
      Js.or_else (Options.width options) (Element.offsetWidth element) /\
    GameObject.height obj =
      Js.or_else (Options.height options) (Element.offsetHeight element) /\
    GameObject.isPlayerControlled obj = Options.isPlayerControlled options /\
    GameObject.isPlatform obj = false.
Proof.
  unfold createGameObject. cbn [GameObject.isPlayerControlled].
  destruct (Options.isPlayerControlled options); cbn [fst snd];
    (eexists; split; [reflexivity | repeat split]).
Qed.

(** X1: [createGameObject] pushes exactly one object at the end of the
  registry and returns its index.  The objects already registered keep their
  place and every property of their own, all but the DOM element, which the
  new object may share with them; the subscriptions, the calls made so far,
  the clock and the scene size are untouched. *)
Theorem createGameObject_appends (elementId : string) (element : Element.t)
    (options : Options.t) (e : Engine.t) :
  let ref := fst (createGameObject elementId element options e) in
  let e' := snd (createGameObject elementId element options e) in
  ref = length (Engine.gameObjects e) /\
  length (Engine.gameObjects e') = S (length (Engine.gameObjects e)) /\
  (exists obj : GameObject.t,
     deref e' ref = Some obj /\ GameObject.id obj = elementId) /\
  (forall (k : nat) (old : GameObject.t),
     deref e k = Some old ->
     exists old' : GameObject.t,
       deref e' k = Some old' /\ sameButElement old old') /\
  Engine.eventListeners e' = Engine.eventListeners e /\
  Engine.calls e' = Engine.calls e /\
  Engine.lastTime e' = Engine.lastTime e /\
  Engine.width e' = Engine.width e /\
  Engine.height e' = Engine.height e.
Proof.
  cbn zeta.
  destruct (createGameObject_push elementId element options e)
    as (obj & Hobjs & Href & Hid & _).
  split; [exact Href |].
  split; [rewrite Hobjs, length_app; cbn; lia |].
  split.
  { exists obj. split; [| exact Hid].
    unfold deref. rewrite Hobjs, Href. apply list_lookup_middle.
    reflexivity. }
  split.
  { intros k old Hk. exists old. split; [| apply sameButElement_refl].
    unfold deref in *. rewrite Hobjs.
    rewrite lookup_app_l by (apply lookup_lt_Some in Hk; exact Hk).
    exact Hk. }
  unfold createGameObject. cbn [GameObject.isPlayerControlled].
  destruct (Options.isPlayerControlled options); repeat split.
Qed.

Lemma createGameObject_appends_witness :
  exists old' : GameObject.t,
    deref (snd (createGameObject "c" freshDiv (boxOptions 5 5 10 10 false)
                  twoBoxes)) 1 = Some old' /\
    GameObject.x old' = 40 /\ GameObject.id old' = "b".
Proof.
  destruct (createGameObject_appends "c" freshDiv
              (boxOptions 5 5 10 10 false) twoBoxes)
    as (_ & _ & _ & Hold & _).
  destruct (Hold 1%nat (box "b" 40 0 50 50 false) eq_refl)
    as (old' & Hk & Hsame).
  exists old'. split; [exact Hk |].
  rewrite Hsame. split; reflexivity.
Defined.

(** X2: an identifier already in use is not rejected: creating two objects
  under the same identifier registers both, at different references. *)
Theorem createGameObject_duplicate_id (elementId : string)
    (element1 element2 : Element.t) (options1 options2 : Options.t)
    (e : Engine.t) :
  let first := createGameObject elementId element1 options1 e in
  let second := createGameObject elementId element2 options2 (snd first) in
  fst first <> fst second /\
  exists obj1 obj2 : GameObject.t,
    deref (snd second) (fst first) = Some obj1 /\
    deref (snd second) (fst second) = Some obj2 /\
    GameObject.id obj1 = elementId /\
    GameObject.id obj2 = elementId.
Proof.
  cbn zeta.
  destruct (createGameObject_push elementId element1 options1 e)
    as (obj1 & Hobjs1 & Href1 & Hid1 & _).
  destruct (createGameObject_push elementId element2 options2
              (snd (createGameObject elementId element1 options1 e)))
    as (obj2 & Hobjs2 & Href2 & Hid2 & _).
  rewrite Href2, Href1, Hobjs1, length_app. cbn [length].
  split; [lia |].
  exists obj1, obj2. unfold deref. rewrite Hobjs2, Hobjs1.
  split; [| split; [| split; assumption]].
  - rewrite lookup_app_l by (rewrite length_app; cbn; lia).
    apply list_lookup_middle. reflexivity.
  - apply list_lookup_middle. rewrite length_app. reflexivity.
Qed.

Lemma or_else_falsy (v : option Q) (d : Q) : falsy v -> Js.or_else v d = d.
Proof.
  intros [-> | (a & -> & Ha)]; [reflexivity |].
  unfold Js.or_else, Js.truthy.
  apply Qeq_bool_iff in Ha. rewrite Ha. reflexivity.
Qed.

Lemma or_else_given (a d : Q) : ~ a == 0 -> Js.or_else (Some a) d = a.
Proof.
  intros Ha. unfold Js.or_else, Js.truthy.
  destruct (Qeq_bool a 0) eqn:Hz; [| reflexivity].
  apply Qeq_bool_iff in Hz. contradiction.
Qed.

(** X3: a size given as [0] is treated as not given: the object then takes
  the measured size of its element, as when the option is absent; any other
  number is taken as given.  Likewise an absent coordinate is [0]. *)
Theorem createGameObject_defaults (elementId : string) (element : Element.t)
    (options : Options.t) (e : Engine.t) :
  exists obj : GameObject.t,
    deref (snd (createGameObject elementId element options e))
          (fst (createGameObject elementId element options e)) = Some obj /\
    (falsy (Options.width options) ->
       GameObject.width obj = Element.offsetWidth element) /\
    (falsy (Options.height options) ->
       GameObject.height obj = Element.offsetHeight element) /\
    (forall a : Q, Options.width options = Some a -> ~ a == 0 ->
       GameObject.width obj = a) /\
    (forall a : Q, Options.height options = Some a -> ~ a == 0 ->
       GameObject.height obj = a) /\
    (falsy (Options.x options) -> GameObject.x obj = 0) /\
    (falsy (Options.y options) -> GameObject.y obj = 0) /\
    (forall a : Q, Options.x options = Some a -> ~ a == 0 ->
       GameObject.x obj = a) /\
    (forall a : Q, Options.y options = Some a -> ~ a == 0 ->
       GameObject.y obj = a).
Proof.
  destruct (createGameObject_push elementId element options e)
    as (obj & Hobjs & Href & _ & Hx & Hy & Hw & Hh & _).
  exists obj. split.
  { unfold deref. rewrite Hobjs, Href. apply list_lookup_middle.
    reflexivity. }
  rewrite Hx, Hy, Hw, Hh.
  repeat split; intros;
    first [ apply or_else_falsy; assumption
          | match goal with
            | H : _ = Some _ |- _ => rewrite H
            end; apply or_else_given; assumption ].
Qed.

Lemma createGameObject_defaults_witness :
  exists obj : GameObject.t,
    deref (snd (createGameObject "d" (Element.mk unset unset unset unset 64 48)
                  (Options.mk None (Some 7) (Some 0) (Some 30) None false
                              false false None None)
                  twoBoxes)) 2 = Some obj /\
    GameObject.width obj = 64 /\ GameObject.height obj = 30 /\
    GameObject.x obj = 0 /\ GameObject.y obj = 7.
Proof.
  destruct (createGameObject_defaults "d"
              (Element.mk unset unset unset unset 64 48)
              (Options.mk None (Some 7) (Some 0) (Some 30) None false false
                          false None None)
              twoBoxes)
    as (obj & Href & Hw0 & _ & _ & Hh & Hx0 & _ & _ & Hy).
  exists obj. split; [exact Href |].
  split; [apply Hw0; right; exists 0; split; reflexivity |].
  split; [apply (Hh 30); [reflexivity | discriminate] |].
  split; [apply Hx0; left; reflexivity |].
  apply (Hy 7); [reflexivity | discriminate].
Defined.





(** ** Further properties: geometry and resolution *)

Lemma lt_proper (a a' b b' : Q) :
  a == a' -> b == b' -> Js.lt a b = Js.lt a' b'.
Proof.
  intros Ha Hb.
  destruct (Js.lt a' b') eqn:H'.
  - apply lt_true in H'. apply lt_true. lra.
  - apply lt_false in H'. apply lt_false. lra.
Qed.

(** X5: the intersection test and the collision data agree: two objects
  collide exactly when both reported depths are positive. *)
Theorem isColliding_overlaps_positive (obj1 obj2 : GameObject.t) :
  isColliding (GameObject.rect obj1) (GameObject.rect obj2) = true <->
  0 < CollisionData.overlapX (getCollisionData obj1 obj2) /\
  0 < CollisionData.overlapY (getCollisionData obj1 obj2).
Proof.
  rewrite isColliding_true.
  unfold strictlyOverlapping, getCollisionData, Js.min.
  cbn [GameObject.rect Rect.x Rect.y Rect.width Rect.height
       CollisionData.overlapX CollisionData.overlapY].
  rewrite !Q.min_glb_lt_iff.
  split; intros; repeat split; lra.
Qed.

Lemma isColliding_overlaps_positive_witness :
  0 < CollisionData.overlapX (getCollisionData wall crate) /\
  0 < CollisionData.overlapY (getCollisionData wall crate).
Proof.
  apply (proj1 (isColliding_overlaps_positive wall crate)). reflexivity.
Defined.

(** X6: swapping the two arguments of [getCollisionData] keeps both depths
  and, when the objects differ in both coordinates, turns the direction into
  its opposite. *)
Theorem getCollisionData_swap (obj1 obj2 : GameObject.t) :
  CollisionData.overlapX (getCollisionData obj2 obj1) ==
    CollisionData.overlapX (getCollisionData obj1 obj2) /\
  CollisionData.overlapY (getCollisionData obj2 obj1) ==
    CollisionData.overlapY (getCollisionData obj1 obj2) /\
  (~ GameObject.x obj1 == GameObject.x obj2 ->
   ~ GameObject.y obj1 == GameObject.y obj2 ->
   CollisionData.direction (getCollisionData obj2 obj1) =
   opposite (CollisionData.direction (getCollisionData obj1 obj2))).
Proof.
  unfold getCollisionData, Js.min.
  cbn [CollisionData.overlapX CollisionData.overlapY
       CollisionData.direction].
  split; [apply Q.min_comm |]. split; [apply Q.min_comm |].
  intros Hx Hy.
  rewrite (lt_proper _ _ _ _ (Q.min_comm _ _) (Q.min_comm _ _)).
  destruct (Js.lt _ (Qmin _ _)).
  - destruct (Js.lt (GameObject.x obj1) (GameObject.x obj2)) eqn:H12,
             (Js.lt (GameObject.x obj2) (GameObject.x obj1)) eqn:H21;
      try reflexivity;
      rewrite ?lt_true, ?lt_false in *; exfalso; lra.
  - destruct (Js.lt (GameObject.y obj1) (GameObject.y obj2)) eqn:H12,
             (Js.lt (GameObject.y obj2) (GameObject.y obj1)) eqn:H21;
      try reflexivity;
      rewrite ?lt_true, ?lt_false in *; exfalso; lra.
Qed.

Lemma getCollisionData_swap_witness :
  CollisionData.direction (getCollisionData crate wall) = Direction.right.
Proof.
  rewrite (proj2 (proj2 (getCollisionData_swap wall crate)));
    [reflexivity | discriminate | discriminate].
Defined.

Lemma resolveCollision_kept (obj1 obj2 : GameObject.t)
    (data : CollisionData.t) :
  kept obj1 (fst (resolveCollision obj1 obj2 data)) /\
  kept obj2 (snd (resolveCollision obj1 obj2 data)).
Proof.
  unfold resolveCollision, unlessStatic, kept.
  destruct (GameObject.isStatic obj1) eqn:Hs1,
           (GameObject.isStatic obj2) eqn:Hs2,
           (CollisionData.direction data);
    cbn; rewrite ?Hs1, ?Hs2; cbn; repeat split; assumption.
Qed.

(** X7: [resolveCollision] works on one axis only.  For [left] and [right]
  it leaves [y] and [velocityY] of both objects as they are and sets
  [velocityX] of each non-static object to 0; for [top] and [bottom] it
  leaves [x] and [velocityX] and sets [velocityY] of each non-static object
  to 0.  Identifier, size and flags of both objects are never written. *)
Theorem resolveCollision_axis (obj1 obj2 : GameObject.t)
    (data : CollisionData.t) :
  let after := resolveCollision obj1 obj2 data in
  kept obj1 (fst after) /\ kept obj2 (snd after) /\
  match CollisionData.direction data with
  | Direction.left | Direction.right =>
      GameObject.y (fst after) = GameObject.y obj1 /\
      GameObject.y (snd after) = GameObject.y obj2 /\
      GameObject.velocityY (fst after) = GameObject.velocityY obj1 /\
      GameObject.velocityY (snd after) = GameObject.velocityY obj2 /\
      (GameObject.isStatic obj1 = false ->
         GameObject.velocityX (fst after) = 0) /\
      (GameObject.isStatic obj2 = false ->
         GameObject.velocityX (snd after) = 0)
  | Direction.top | Direction.bottom =>
      GameObject.x (fst after) = GameObject.x obj1 /\
      GameObject.x (snd after) = GameObject.x obj2 /\
      GameObject.velocityX (fst after) = GameObject.velocityX obj1 /\
      GameObject.velocityX (snd after) = GameObject.velocityX obj2 /\
      (GameObject.isStatic obj1 = false ->
         GameObject.velocityY (fst after) = 0) /\
      (GameObject.isStatic obj2 = false ->
         GameObject.velocityY (snd after) = 0)
  end.
Proof.
  cbn zeta.
  split; [apply resolveCollision_kept |].
  split; [apply resolveCollision_kept |].
  unfold resolveCollision, unlessStatic.
  destruct (GameObject.isStatic obj1) eqn:Hs1,
           (GameObject.isStatic obj2) eqn:Hs2,
           (CollisionData.direction data);
    cbn; rewrite ?Hs1, ?Hs2; cbn; repeat split; intros; congruence.
Qed.

Lemma resolveCollision_axis_witness :
  GameObject.velocityX
    (snd (resolveCollision
            (box "a" 1 1 50 50 true)
            (GameObject.set_velocityX 10 (box "b" 41 1 50 50 false))
            (CollisionData.mk 10 50 Direction.left))) = 0.
Proof.
  destruct (resolveCollision_axis
              (box "a" 1 1 50 50 true)
              (GameObject.set_velocityX 10 (box "b" 41 1 50 50 false))
              (CollisionData.mk 10 50 Direction.left))
    as (_ & _ & _ & _ & _ & _ & _ & Hv).
  apply Hv. reflexivity.
Defined.

(** ** Further properties: ground detection *)

Lemma isOnGround_true (e : Engine.t) (i : nat) (obj : GameObject.t) :
  isOnGround e i obj = true <->
  exists (k : nat) (other : GameObject.t),
    k <> i /\ deref e k = Some other /\
    GameObject.isPlatform other = false /\
    isColliding (feet obj) (GameObject.rect other) = true.
Proof.
  unfold isOnGround. fold (feet obj). rewrite existsb_exists. split.
  - intros ([k other] & Hin & Htest).
    apply list_elem_of_In, list_elem_of_lookup in Hin.
    destruct Hin as (n & Hn). rewrite list_lookup_imap in Hn.
    destruct (Engine.gameObjects e !! n) as [o |] eqn:Ho; [| discriminate].
    cbn in Hn. injection Hn as <- <-.
    apply andb_true_iff in Htest. destruct Htest as (Htest & Hhit).
    apply andb_true_iff in Htest. destruct Htest as (Hne & Hplat).
    exists n, o. repeat split; try assumption.
    + apply negb_true_iff, Nat.eqb_neq in Hne. exact Hne.
    + apply negb_true_iff in Hplat. exact Hplat.
  - intros (k & other & Hne & Hk & Hplat & Hhit).
    exists (k, other). split.
    + apply list_elem_of_In, list_elem_of_lookup. exists k.
      rewrite list_lookup_imap. unfold deref in Hk. rewrite Hk. reflexivity.
    + rewrite Hhit, Hplat. apply Nat.eqb_neq in Hne. rewrite Hne.
      reflexivity.
Qed.



(** X12: an object standing exactly on top of another one that overlaps it
  horizontally is on ground when the other is more than 1 unit high.  The
  probe under it never meets an object it stands exactly on that is at most
  1 unit high, so it is not on ground when every other registered object
  that is no platform is such an object. *)
Theorem isOnGround_resting (e : Engine.t) (i : nat) (obj : GameObject.t) :
  (forall (k : nat) (other : GameObject.t),
     k <> i -> deref e k = Some other ->
     GameObject.isPlatform other = false ->
     GameObject.x obj < GameObject.x other + GameObject.width other ->
     GameObject.x other < GameObject.x obj + GameObject.width obj ->
     GameObject.y obj + GameObject.height obj == GameObject.y other ->
     1 < GameObject.height other ->
     isOnGround e i obj = true) /\
  (forall other : GameObject.t,
     GameObject.y obj + GameObject.height obj == GameObject.y other ->
     GameObject.height other <= 1 ->
     isColliding (feet obj) (GameObject.rect other) = false) /\
  ((forall (k : nat) (other : GameObject.t),
      k <> i -> deref e k = Some other ->
      GameObject.isPlatform other = false ->
      GameObject.y obj + GameObject.height obj == GameObject.y other /\
      GameObject.height other <= 1) ->
   isOnGround e i obj = false).
Proof.
  assert (Hthin : forall other : GameObject.t,
            GameObject.y obj + GameObject.height obj == GameObject.y other ->
            GameObject.height other <= 1 ->
            isColliding (feet obj) (GameObject.rect other) = false).
  { intros other Hy Hh. apply not_true_iff_false. intros Hfeet.
    apply isColliding_true in Hfeet. destruct Hfeet as (_ & _ & Hy1 & Hy2).
    cbn in Hy1, Hy2. lra. }
  split; [| split; [exact Hthin |]].
  - intros k other Hne Hk Hplat Hx1 Hx2 Hy Hh.
    apply isOnGround_true. exists k, other.
    do 3 (split; [assumption |]).
    apply isColliding_true. unfold strictlyOverlapping. cbn.
    repeat split; lra.
  - intros Hall. apply not_true_iff_false. intros Hg.
    apply isOnGround_true in Hg.
    destruct Hg as (k & other & Hne & Hk & Hplat & Hfeet).
    destruct (Hall k other Hne Hk Hplat) as (Hy & Hh).
    rewrite (Hthin other Hy Hh) in Hfeet. discriminate.
Qed.

Lemma isOnGround_resting_witness :
  isOnGround (onFloor 20) 1 (box "player" 10 50 20 50 false) = true /\
  isColliding (feet (box "player" 10 50 20 50 false))
              (GameObject.rect (box "floor" 1 100 200 1 true)) = false /\
  isOnGround (onFloor 1) 1 (box "player" 10 50 20 50 false) = false.
Proof.
  split; [| split].
  - apply (proj1 (isOnGround_resting (onFloor 20) 1
                    (box "player" 10 50 20 50 false))
             0%nat (box "floor" 1 100 200 20 true));
      try reflexivity.
    discriminate.
  - apply (proj1 (proj2 (isOnGround_resting (onFloor 1) 1
                           (box "player" 10 50 20 50 false))));
      [reflexivity | discriminate].
  - apply (proj2 (proj2 (isOnGround_resting (onFloor 1) 1
                           (box "player" 10 50 20 50 false)))).
    intros k other Hne Hk _.
    destruct k as [| [| k]]; [| contradiction | discriminate Hk].
    injection Hk as <-. split; [reflexivity | discriminate].
Defined.

(** ** Further properties: integration *)

Lemma moved_fields (deltaTime : Q) (e : Engine.t) (i : nat)
    (obj : GameObject.t) :
  GameObject.x (moved deltaTime e i obj) =
    GameObject.x obj +
    GameObject.velocityX (applyAutoMove obj) * (deltaTime / 1000) /\
  GameObject.y (moved deltaTime e i obj) =
    GameObject.y obj +
    GameObject.velocityY (moved deltaTime e i obj) * (deltaTime / 1000) /\
  GameObject.velocityX (moved deltaTime e i obj) =
    GameObject.velocityX (applyAutoMove obj) /\
  GameObject.velocityY (moved deltaTime e i obj) =
    (if GameObject.requireGround obj && negb (isOnGround e i obj)
     then GameObject.velocityY (applyAutoMove obj) + 500 * (deltaTime / 500)
     else GameObject.velocityY (applyAutoMove obj)) /\
  kept obj (moved deltaTime e i obj).
Proof.
  unfold moved, applyGravity. rewrite isOnGround_applyAutoMove.
  replace (GameObject.requireGround (applyAutoMove obj))
    with (GameObject.requireGround obj)
    by (unfold applyAutoMove; destruct (GameObject.autoMove obj); reflexivity).
  unfold kept, applyAutoMove.
  destruct (GameObject.requireGround obj && negb (isOnGround e i obj)),
           (GameObject.autoMove obj) eqn:Hauto; cbn; repeat split;
    rewrite Hauto; reflexivity.
Qed.

Lemma update_deref (deltaTime : Q) (e : Engine.t) (i : nat)
    (obj : GameObject.t) :
  deref e i = Some obj ->
  deref (update deltaTime e) i =
  Some (if GameObject.isStatic obj then obj
        else GameObject.syncElement
               (moved deltaTime (reached deltaTime e i) i obj)).
Proof.
  intros Hi. destruct (GameObject.isStatic obj) eqn:Hs.
  - apply (preserved_static _ _ (update_preserved deltaTime e) i obj Hi Hs).
  - apply update_moving; assumption.
Qed.

(** X13: with no time elapsed nothing moves: after [update] with a
  [deltaTime] equal to 0 every object is where it was. *)
Theorem update_zero (deltaTime : Q) (e : Engine.t) (i : nat)
    (obj : GameObject.t) :
  deltaTime == 0 ->
  deref e i = Some obj ->
  exists obj' : GameObject.t,
    deref (update deltaTime e) i = Some obj' /\
    GameObject.x obj' == GameObject.x obj /\
    GameObject.y obj' == GameObject.y obj.
Proof.
  intros Hdt Hi. eexists. split; [apply update_deref; exact Hi |].
  destruct (GameObject.isStatic obj); [split; reflexivity |].
  destruct (moved_fields deltaTime (reached deltaTime e i) i obj)
    as (Hx & Hy & _).
  cbn [GameObject.syncElement GameObject.set_element GameObject.x
       GameObject.y].
  rewrite Hx, Hy.
  split;
    match goal with
    | |- _ + ?v * _ == _ => generalize v; intros v'
    end;
    rewrite Hdt; field.
Qed.

Lemma update_zero_witness :
  exists obj' : GameObject.t,
    deref (update 0 drifting) 1 = Some obj' /\
    GameObject.x obj' == 400 /\ GameObject.y obj' == 200.
Proof.
  apply (update_zero 0 drifting 1
           (GameObject.set_velocityX 30 (box "b" 400 200 50 50 false)));
    reflexivity.
Defined.

(** X14: [update] advances a non-static object by the velocity it has just
  given it: [x] grows by [velocityX * (deltaTime / 1000)] and [y] by
  [velocityY * (deltaTime / 1000)], with [velocityX] and [velocityY] as they
  are after that same update. *)
Theorem update_position (deltaTime : Q) (e : Engine.t) (i : nat)
    (obj : GameObject.t) :
  deref e i = Some obj ->
  GameObject.isStatic obj = false ->
  exists obj' : GameObject.t,
    deref (update deltaTime e) i = Some obj' /\
    GameObject.x obj' =
      GameObject.x obj + GameObject.velocityX obj' * (deltaTime / 1000) /\
    GameObject.y obj' =
      GameObject.y obj + GameObject.velocityY obj' * (deltaTime / 1000).
Proof.
  intros Hi Hs.
  eexists. split; [apply update_deref; exact Hi |]. rewrite Hs.
  destruct (moved_fields deltaTime (reached deltaTime e i) i obj)
    as (Hx & Hy & Hvx & _).
  cbn [GameObject.syncElement GameObject.set_element GameObject.x
       GameObject.y GameObject.velocityX GameObject.velocityY].
  rewrite Hvx. split; assumption.
Qed.

Lemma update_position_witness :
  exists obj' : GameObject.t,
    deref (update 500 drifting) 1 = Some obj' /\
    GameObject.x obj' == 415.
Proof.
  destruct (update_position 500 drifting 1
              (GameObject.set_velocityX 30 (box "b" 400 200 50 50 false))
              eq_refl eq_refl)
    as (obj' & Hobj' & Hx & _).
  exists obj'. split; [exact Hobj' |].
  injection Hobj' as <-. reflexivity.
Defined.

(** X15: what [update] does to the velocity of a non-static object.
  [velocityX] becomes [autoMove.x] when [autoMove] is set, whatever it was,
  and is otherwise left alone; gravity is not applied, so [velocityY] is
  [autoMove.y] or left alone, when the object does not require ground or is
  on ground when [update] reaches it. *)
Theorem update_velocity (deltaTime : Q) (e : Engine.t) (i : nat)
    (obj : GameObject.t) :
  deref e i = Some obj ->
  GameObject.isStatic obj = false ->
  exists obj' : GameObject.t,
    deref (update deltaTime e) i = Some obj' /\
    (forall autoMove : AutoMove.t,
       GameObject.autoMove obj = Some autoMove ->
       GameObject.velocityX obj' = AutoMove.x autoMove) /\
    (GameObject.autoMove obj = None ->
       GameObject.velocityX obj' = GameObject.velocityX obj) /\
    (GameObject.requireGround obj = false \/
     isOnGround (reached deltaTime e i) i obj = true ->
       (forall autoMove : AutoMove.t,
          GameObject.autoMove obj = Some autoMove ->
          GameObject.velocityY obj' = AutoMove.y autoMove) /\
       (GameObject.autoMove obj = None ->
          GameObject.velocityY obj' = GameObject.velocityY obj)).
Proof.
  intros Hi Hs.
  eexists. split; [apply update_deref; exact Hi |]. rewrite Hs.
  destruct (moved_fields deltaTime (reached deltaTime e i) i obj)
    as (_ & _ & Hvx & Hvy & _).
  cbn [GameObject.syncElement GameObject.set_element GameObject.velocityX
       GameObject.velocityY].
  rewrite Hvx.
  split; [| split].
  - intros a Ha. unfold applyAutoMove. rewrite Ha. reflexivity.
  - intros Ha. unfold applyAutoMove. rewrite Ha. reflexivity.
  - intros Hcalm. rewrite Hvy.
    replace (GameObject.requireGround obj &&
             negb (isOnGround (reached deltaTime e i) i obj)) with false
      by (destruct Hcalm as [-> | ->];
          [reflexivity | rewrite andb_false_r; reflexivity]).
    split.
    + intros a Ha. unfold applyAutoMove. rewrite Ha. reflexivity.
    + intros Ha. unfold applyAutoMove. rewrite Ha. reflexivity.
Qed.

Lemma update_velocity_witness :
  exists obj' : GameObject.t,
    deref (update 16 drifting) 1 = Some obj' /\
    GameObject.velocityX obj' = 30 /\ GameObject.velocityY obj' = 0.
Proof.
  destruct (update_velocity 16 drifting 1
              (GameObject.set_velocityX 30 (box "b" 400 200 50 50 false))
              eq_refl eq_refl)
    as (obj' & Hobj' & _ & Hvx & Hvy).
  exists obj'. split; [exact Hobj' |].
  split; [apply Hvx; reflexivity |].
  apply (Hvy (or_introl eq_refl)). reflexivity.
Defined.

(** ** Further properties: what a frame keeps *)

Lemma kept_refl (obj : GameObject.t) : kept obj obj.
Proof. unfold kept. repeat split. Qed.

Lemma kept_trans (obj1 obj2 obj3 : GameObject.t) :
  kept obj1 obj2 -> kept obj2 obj3 -> kept obj1 obj3.
Proof.
  unfold kept. intros H12 H23.
  destruct H12 as (? & ? & ? & ? & ? & ? & ? & ? & ? & ?).
  destruct H23 as (? & ? & ? & ? & ? & ? & ? & ? & ? & ?).
  repeat split; congruence.
Qed.

Lemma framed_refl (e : Engine.t) : framed e e.
Proof.
  constructor; try reflexivity.
  intros k obj Hk. exists obj. split; [exact Hk | apply kept_refl].
Qed.

Lemma framed_trans (e1 e2 e3 : Engine.t) :
  framed e1 e2 -> framed e2 e3 -> framed e1 e3.
Proof.
  intros [Hl12 Hk12 He12 Ht12 Hw12 Hh12] [Hl23 Hk23 He23 Ht23 Hw23 Hh23].
  constructor; try congruence.
  intros k obj Hk.
  destruct (Hk12 k obj Hk) as (obj2 & Hk2 & Hkept2).
  destruct (Hk23 k obj2 Hk2) as (obj3 & Hk3 & Hkept3).
  exists obj3. split; [exact Hk3 |].
  eapply kept_trans; eassumption.
Qed.

Lemma collisionSilent_framed (e e' : Engine.t) :
  framed e e' -> collisionSilent e -> collisionSilent e'.
Proof.
  intros Hframed (Hnone & Hsub). split.
  - intros k obj' Hk'.
    destruct (deref e k) as [obj |] eqn:Hk.
    + destruct (framed_kept _ _ Hframed k obj Hk) as (o & Ho & Hkept).
      assert (o = obj') as -> by congruence.
      destruct Hkept as (_ & _ & _ & _ & _ & _ & _ & _ & Hon & _).
      rewrite Hon. apply (Hnone k obj Hk).
    + unfold deref in *. apply lookup_lt_Some in Hk'.
      apply lookup_ge_None in Hk.
      rewrite (framed_length _ _ Hframed) in Hk'. lia.
  - rewrite (framed_eventListeners _ _ Hframed). exact Hsub.
Qed.

Lemma quiet_refl (e : Engine.t) : quiet e e.
Proof. split; [apply framed_refl | split; reflexivity]. Qed.

Lemma quiet_trans (e1 e2 e3 : Engine.t) :
  quiet e1 e2 -> quiet e2 e3 -> quiet e1 e3.
Proof.
  intros (Hf12 & Ht12 & Hc12) (Hf23 & Ht23 & Hc23).
  split; [eapply framed_trans; eassumption |].
  split; [congruence |].
  intros Hsilent. rewrite Hc23, Hc12; try assumption. reflexivity.
  eapply collisionSilent_framed; eassumption.
Qed.

Lemma fold_quiet (step : Engine.t -> nat -> Engine.t) (l : list nat) :
  (forall (e : Engine.t) (k : nat), In k l -> quiet e (step e k)) ->
  forall e : Engine.t, quiet e (fold_left step l e).
Proof.
  induction l as [| k l IH]; intros Hstep e; cbn [fold_left].
  - apply quiet_refl.
  - eapply quiet_trans.
    + apply Hstep. left. reflexivity.
    + apply IH. intros e' k' Hin. apply Hstep. right. exact Hin.
Qed.

Lemma collidePair_quiet (e : Engine.t) (i j : nat) :
  i <> j -> quiet e (collidePair e i j).
Proof.
  intros Hij.
  destruct (deref e i) as [obj1 |] eqn:Hi;
    [| rewrite collidePair_miss; [apply quiet_refl | congruence]].
  destruct (deref e j) as [obj2 |] eqn:Hj;
    [| rewrite collidePair_miss; [apply quiet_refl | congruence]].
  destruct (isColliding (GameObject.rect obj1) (GameObject.rect obj2))
    eqn:Hhit;
    [| rewrite collidePair_miss; [apply quiet_refl | congruence]].
  rewrite (collidePair_hit e i j obj1 obj2 Hi Hj Hhit).
  pose proof (lookup_lt_Some _ _ _ Hi) as Hlti.
  pose proof (lookup_lt_Some _ _ _ Hj) as Hltj.
  destruct (resolveCollision_kept obj1 obj2 (getCollisionData obj1 obj2))
    as (Hkept1 & Hkept2).
  split; [| split; [reflexivity |]].
  - constructor; try reflexivity.
    + cbn. rewrite !length_insert. reflexivity.
    + intros k obj Hk. unfold deref in *. cbn.
      destruct (decide (k = j)) as [-> | Hkj].
      * rewrite list_lookup_insert_eq by (rewrite length_insert; exact Hltj).
        eexists. split; [reflexivity |].
        assert (obj = obj2) as -> by congruence. exact Hkept2.
      * rewrite list_lookup_insert_ne by congruence.
        destruct (decide (k = i)) as [-> | Hki].
        -- rewrite list_lookup_insert_eq by exact Hlti.
           eexists. split; [reflexivity |].
           assert (obj = obj1) as -> by congruence. exact Hkept1.
        -- rewrite list_lookup_insert_ne by congruence.
           exists obj. split; [exact Hk | apply kept_refl].
  - intros (Hnone & Hsub). cbn.
    unfold collisionCalls, dispatched.
    rewrite (Hnone i obj1 Hi), (Hnone j obj2 Hj), Hsub. cbn.
    apply app_nil_r.
Qed.

Lemma checkCollisions_quiet (e : Engine.t) : quiet e (checkCollisions e).
Proof.
  unfold checkCollisions. apply fold_quiet. intros e1 i _.
  unfold collideRow. apply fold_quiet. intros e2 j Hj.
  apply List.in_seq in Hj. apply collidePair_quiet. lia.
Qed.

Lemma update_framed (deltaTime : Q) (e : Engine.t) :
  framed e (update deltaTime e).
Proof.
  destruct (update_preserved deltaTime e)
    as [Hlen _ Hlisteners Htimers _ Hwidth Hheight].
  constructor; try assumption.
  intros k obj Hk. eexists. split; [apply update_deref; exact Hk |].
  destruct (GameObject.isStatic obj); [apply kept_refl |].
  destruct (moved_fields deltaTime (reached deltaTime e k) k obj)
    as (_ & _ & _ & _ & Hkept).
  exact Hkept.
Qed.

(** X16: update, the collision pass and a whole frame never add, remove or
  reorder objects, and never write an object's identifier, size, [autoMove],
  flags, tag or [onCollision]; they leave the subscriptions, the pending
  timers and the scene size alone. *)
Theorem frame_keeps (timestamp deltaTime : Q) (e : Engine.t) :
  framed e (update deltaTime e) /\
  framed e (checkCollisions e) /\
  framed e (gameLoop timestamp e).
Proof.
  split; [apply update_framed |].
  split; [apply checkCollisions_quiet |].
  unfold gameLoop.
  eapply framed_trans; [| apply checkCollisions_quiet].
  eapply framed_trans; [| apply update_framed].
  constructor; try reflexivity.
  intros k obj Hk. exists obj. split; [exact Hk | apply kept_refl].
Qed.

Lemma frame_keeps_witness :
  exists obj' : GameObject.t,
    deref (gameLoop 16 twoBoxes) 1 = Some obj' /\
    GameObject.width obj' = 50 /\ GameObject.id obj' = "b".
Proof.
  destruct (framed_kept _ _ (proj2 (proj2 (frame_keeps 16 0 twoBoxes)))
              1%nat (box "b" 40 0 50 50 false) eq_refl)
    as (obj' & Hobj' & Hid & Hwidth & _).
  exists obj'. split; [exact Hobj' |]. split; assumption.
Defined.

(** ** Further properties: collision pass and main loop *)

Lemma fold_left_fixed (step : Engine.t -> nat -> Engine.t) (l : list nat)
    (e : Engine.t) :
  (forall k : nat, In k l -> step e k = e) -> fold_left step l e = e.
Proof.
  induction l as [| k l IH]; intros Hfix; cbn [fold_left]; [reflexivity |].
  rewrite (Hfix k (or_introl eq_refl)). apply IH.
  intros k' Hin. apply Hfix. right. exact Hin.
Qed.

(** X17: when no two registered objects collide, the collision pass changes
  nothing at all and calls nobody; in particular with fewer than two objects
  in the registry. *)
Theorem checkCollisions_no_collision (e : Engine.t) :
  ((forall (i j : nat) (obj1 obj2 : GameObject.t),
      (i < j)%nat -> deref e i = Some obj1 -> deref e j = Some obj2 ->
      isColliding (GameObject.rect obj1) (GameObject.rect obj2) = false) ->
   checkCollisions e = e) /\
  ((length (Engine.gameObjects e) <= 1)%nat -> checkCollisions e = e).
Proof.
  assert (Hmain :
    (forall (i j : nat) (obj1 obj2 : GameObject.t),
       (i < j)%nat -> deref e i = Some obj1 -> deref e j = Some obj2 ->
       isColliding (GameObject.rect obj1) (GameObject.rect obj2) = false) ->
    checkCollisions e = e).
  { intros Hfree. unfold checkCollisions.
    apply fold_left_fixed. intros i _.
    unfold collideRow. apply fold_left_fixed. intros j Hj.
    apply List.in_seq in Hj.
    apply collidePair_miss. intros obj1 obj2 Hi Hjj.
    apply (Hfree i j obj1 obj2); [lia | assumption | assumption]. }
  split; [exact Hmain |].
  intros Hlen. apply Hmain. intros i j obj1 obj2 Hij Hi Hj.
  apply lookup_lt_Some in Hj. lia.
Qed.

Lemma checkCollisions_no_collision_witness :
  checkCollisions (onFloor 20) = onFloor 20 /\
  checkCollisions (SimpleGameEngine.new None None) =
  SimpleGameEngine.new None None.
Proof.
  split.
  - apply (proj1 (checkCollisions_no_collision (onFloor 20))).
    intros i j obj1 obj2 Hij Hi Hj.
    destruct i as [| [| i]], j as [| [| j]];
      try lia; try discriminate Hi; try discriminate Hj.
    injection Hi as <-. injection Hj as <-. reflexivity.
  - apply (proj2 (checkCollisions_no_collision
                    (SimpleGameEngine.new None None))).
    cbn. lia.
Defined.

(** X18: a frame on an empty registry only sets the clock. *)
Theorem gameLoop_empty (timestamp : Q) (e : Engine.t) :
  Engine.gameObjects e = [] ->
  gameLoop timestamp e = Engine.set_lastTime timestamp e.
Proof.
  intros Hnil. unfold gameLoop, update, checkCollisions.
  cbn [Engine.gameObjects Engine.set_lastTime]. rewrite Hnil.
  cbn [length seq fold_left Engine.gameObjects Engine.set_lastTime].
  rewrite Hnil. reflexivity.
Qed.

Lemma gameLoop_empty_witness :
  gameLoop 16 (SimpleGameEngine.new None None) =
  Engine.set_lastTime 16 (SimpleGameEngine.new None None).
Proof. apply gameLoop_empty. reflexivity. Defined.

(** X19: the clock of the loop.  After a frame [lastTime] is the timestamp
  of that frame, so the [deltaTime] of the next frame is the difference of
  the two timestamps: the second of two frames updates with [t2 - t1]. *)
Theorem gameLoop_clock (t1 t2 : Q) (e : Engine.t) :
  Engine.lastTime (gameLoop t1 e) = t1 /\
  gameLoop t2 (gameLoop t1 e) =
  checkCollisions
    (update (t2 - t1) (Engine.set_lastTime t2 (gameLoop t1 e))).
Proof.
  assert (Hclock : Engine.lastTime (gameLoop t1 e) = t1).
  { unfold gameLoop.
    destruct (checkCollisions_quiet
                (update (t1 - Engine.lastTime e) (Engine.set_lastTime t1 e)))
      as (_ & -> & _).
    rewrite (preserved_lastTime _ _ (update_preserved _ _)). reflexivity. }
  split; [exact Hclock |].
  unfold gameLoop at 1. rewrite Hclock. reflexivity.
Qed.

(** X20: events are independent.  For two different event names that
  [Object.prototype] does not define, subscribing to one and emitting the
  other commute: both calls return, and the subscription changes neither who
  is called by the other event nor in what order. *)
Theorem on_emit_commute (event1 event2 : string) (callback : Callback)
    (data : Value) (e : Engine.t) :
  event1 <> event2 ->
  Js.inherited event1 = false ->
  Js.inherited event2 = false ->
  let subscribed := Completion.state (on event1 callback e) in
  let emitted := Completion.state (emit event2 data e) in
  on event1 callback e = Completion.Normal subscribed /\
  emit event2 data e = Completion.Normal emitted /\
  emit event2 data subscribed = on event1 callback emitted /\
  Engine.calls (Completion.state (emit event2 data subscribed)) =
    Engine.calls emitted.
Proof.
  intros Hne Hown1 Hown2. cbn zeta.
  assert (Hsame : dispatched event2 data
                    (Completion.state (on event1 callback e)) =
                  dispatched event2 data e).
  { unfold dispatched. rewrite on_lookup_ne by congruence. reflexivity. }
  split; [apply on_returns; exact Hown1 |].
  split; [rewrite (emit_calls event2 data e);
          apply emit_returns; exact Hown2 |].
  split.
  - rewrite (emit_calls event2 data e).
    rewrite (emit_returns event2 data
               (Completion.state (on event1 callback e)) Hown2), Hsame.
    rewrite (proj1 (proj2 (on_frame event1 callback e))).
    unfold on, getListeners.
    cbn [Engine.eventListeners Engine.set_calls].
    rewrite Hown1.
    destruct (Engine.eventListeners e !! event1); reflexivity.
  - rewrite !emit_trace, Hsame.
    rewrite (proj1 (proj2 (on_frame event1 callback e))). reflexivity.
Qed.

Lemma on_emit_commute_witness :
  Engine.calls
    (Completion.state
       (emit "collision" (VObject 0)
          (Completion.state (on "hitBoundary" (fn "f") staticPair)))) =
  [call (fn "log") [VObject 0]].
Proof.
  rewrite (proj2 (proj2 (proj2
             (on_emit_commute "hitBoundary" "collision" (fn "f")
                (VObject 0) staticPair ltac:(discriminate)
                eq_refl eq_refl)))).
  reflexivity.
Defined.

(** X21: a frame calls nothing it was not given: when no object has an
  [onCollision] callback and nobody subscribed to [collision] or
  [hitBoundary], a whole frame makes no call. *)
Theorem gameLoop_silent (timestamp : Q) (e : Engine.t) :
  collisionSilent e ->
  Engine.eventListeners e !! "hitBoundary" = None ->
  Engine.calls (gameLoop timestamp e) = Engine.calls e.
Proof.
  intros Hsilent Hhit. unfold gameLoop.
  set (e1 := Engine.set_lastTime timestamp e).
  set (deltaTime := timestamp - Engine.lastTime e).
  assert (Hupdate : Engine.calls (update deltaTime e1) = Engine.calls e).
  { unfold update.
    destruct (update_fold deltaTime _
                (NoDup_seq 0 (length (Engine.gameObjects e1))) e1)
      as (_ & _ & ->).
    rewrite (flat_map_ext_in (hitBoundaryCalls e1) (fun _ => [])).
    - induction (seq 0 (length (Engine.gameObjects e1))) as [| k l IH];
        [apply app_nil_r | exact IH].
    - intros k _. unfold hitBoundaryCalls, dispatched.
      change (Engine.eventListeners e1) with (Engine.eventListeners e).
      rewrite Hhit.
      destruct (deref e1 k) as [obj |]; [| reflexivity].
      destruct (GameObject.isStatic obj); reflexivity. }
  destruct (checkCollisions_quiet (update deltaTime e1)) as (_ & _ & ->);
    [exact Hupdate |].
  apply (collisionSilent_framed e); [| exact Hsilent].
  eapply framed_trans; [| apply update_framed].
  constructor; try reflexivity.
  intros k obj Hk. exists obj. split; [exact Hk | apply kept_refl].
Qed.

Lemma gameLoop_silent_witness :
  Engine.calls (gameLoop 16 twoBoxes) = [].
Proof.
  apply (gameLoop_silent 16 twoBoxes); [| reflexivity].
  split; [| reflexivity].
  intros k obj Hk.
  destruct k as [| [| k]]; [| | discriminate Hk];
    injection Hk as <-; reflexivity.
Defined.

Lemma set_calls_id (e : Engine.t) : Engine.set_calls (Engine.calls e) e = e.
Proof. destruct e; reflexivity. Qed.

Lemma collidePair_all_static (e : Engine.t) (i j : nat) :
  (forall (k : nat) (obj : GameObject.t),
     deref e k = Some obj -> GameObject.isStatic obj = true) ->
  collidePair e i j =
  Engine.set_calls (Engine.calls e ++ pairCalls e i j) e.
Proof.
  intros Hstatic. unfold pairCalls.
  destruct (deref e i) as [obj1 |] eqn:Hi;
    [| rewrite collidePair_miss by congruence;
       rewrite app_nil_r; symmetry; apply set_calls_id].
  destruct (deref e j) as [obj2 |] eqn:Hj;
    [| rewrite collidePair_miss by congruence;
       rewrite app_nil_r; symmetry; apply set_calls_id].
  destruct (isColliding (GameObject.rect obj1) (GameObject.rect obj2))
    eqn:Hhit;
    [| rewrite collidePair_miss by congruence;
       rewrite app_nil_r; symmetry; apply set_calls_id].
  rewrite (collidePair_hit e i j obj1 obj2 Hi Hj Hhit).
  unfold resolveCollision.
  rewrite (Hstatic i obj1 Hi), (Hstatic j obj2 Hj).
  cbn [andb fst snd]. unfold Engine.store, deref in *.
  cbn [Engine.gameObjects Engine.set_gameObjects].
  rewrite (list_insert_id _ i obj1 Hi), (list_insert_id _ j obj2 Hj).
  destruct e; reflexivity.
Qed.

Lemma fold_left_calls (e : Engine.t) (step : Engine.t -> nat -> Engine.t)
    (f : nat -> list Call) (l : list nat) :
  (forall (c : list Call) (k : nat),
     In k l ->
     step (Engine.set_calls c e) k = Engine.set_calls (c ++ f k) e) ->
  forall c : list Call,
    fold_left step l (Engine.set_calls c e) =
    Engine.set_calls (c ++ flat_map f l) e.
Proof.
  induction l as [| k l IH]; intros Hstep c; cbn [fold_left flat_map].
  - rewrite app_nil_r. reflexivity.
  - rewrite (Hstep c k (or_introl eq_refl)), IH, <- app_assoc; [reflexivity |].
    intros c' k' Hin. apply Hstep. right. exact Hin.
Qed.

(** X22: the pass visits the pairs in a fixed order, [i] ascending and, for
  each [i], [j] ascending from [i + 1].  On a registry of static objects the
  pass changes no object, and the calls it makes are those of every colliding
  pair, one pair after the other in that order. *)
Theorem checkCollisions_pair_order (e : Engine.t) :
  (forall (k : nat) (obj : GameObject.t),
     deref e k = Some obj -> GameObject.isStatic obj = true) ->
  Engine.gameObjects (checkCollisions e) = Engine.gameObjects e /\
  Engine.calls (checkCollisions e) =
    Engine.calls e ++
    flat_map
      (fun i =>
         flat_map (fun j => pairCalls e i j)
           (seq (i + 1) (length (Engine.gameObjects e) - (i + 1))))
      (seq 0 (length (Engine.gameObjects e))).
Proof.
  intros Hstatic.
  assert (Hpass :
    checkCollisions e =
    Engine.set_calls
      (Engine.calls e ++
       flat_map
         (fun i =>
            flat_map (fun j => pairCalls e i j)
              (seq (i + 1) (length (Engine.gameObjects e) - (i + 1))))
         (seq 0 (length (Engine.gameObjects e)))) e).
  { unfold checkCollisions. cbn zeta.
    rewrite <- (set_calls_id e) at 3.
    apply fold_left_calls. intros c i _.
    unfold collideRow.
    apply (fold_left_calls e (fun e' j => collidePair e' i j)
             (fun j => pairCalls e i j)).
    intros c' j _.
    rewrite collidePair_all_static; [reflexivity |].
    intros k obj Hk. apply (Hstatic k obj). exact Hk. }
  rewrite Hpass. split; reflexivity.
Qed.

Lemma checkCollisions_pair_order_witness :
  Engine.calls (checkCollisions threeWalls) =
  [call (fn "log") [VCollision 0 1 31 41 Direction.left];
   call (fn "log") [VCollision 0 2 21 21 Direction.top];
   call (fn "log") [VCollision 1 2 40 30 Direction.top]].
Proof.
  rewrite (proj2 (checkCollisions_pair_order threeWalls
    ltac:(intros k obj Hk;
          destruct k as [| [| [| k]]]; [| | | discriminate Hk];
          injection Hk as <-; reflexivity))).
  reflexivity.
Defined.

(** X23: one pass over a registry of two colliding objects, not both static,
  resolves the pair once: it stores the two objects as [resolveCollision]
  leaves them and makes the calls of one detected collision, with the depths
  and the direction measured before the objects were moved. *)
Theorem checkCollisions_two_objects (e : Engine.t)
    (obj1 obj2 : GameObject.t) :
  Engine.gameObjects e = [obj1; obj2] ->
  isColliding (GameObject.rect obj1) (GameObject.rect obj2) = true ->
  GameObject.isStatic obj1 && GameObject.isStatic obj2 = false ->
  Engine.gameObjects (checkCollisions e) =
    [fst (resolved obj1 obj2); snd (resolved obj1 obj2)] /\
  Engine.calls (checkCollisions e) =
    Engine.calls e ++
    collisionCalls e 0 1 (GameObject.onCollision obj1)
      (GameObject.onCollision obj2) (getCollisionData obj1 obj2).
Proof.
  intros Hobjs Hhit Hmov.
  assert (Hpass : checkCollisions e = collidePair e 0 1)
    by (unfold checkCollisions; rewrite Hobjs; reflexivity).
  rewrite Hpass, (collidePair_hit e 0 1 obj1 obj2); try assumption;
    try (unfold deref; rewrite Hobjs; reflexivity).
  split; [| reflexivity].
  cbn. rewrite Hobjs. reflexivity.
Qed.

Lemma checkCollisions_two_objects_witness :
  exists obj2' : GameObject.t,
    deref (checkCollisions twoBoxes) 1 = Some obj2' /\
    GameObject.x obj2' == 50 /\
    GameObject.velocityX obj2' == 0.
Proof.
  destruct (checkCollisions_two_objects twoBoxes
              (GameObject.mk "a"
                 (Element.mk (px 0) (px 0) (px 50) (px 50) 0 0)
                 0 0 50 50 0 0 None true false false String.EmptyString
                 None false)
              (box "b" 40 0 50 50 false) eq_refl eq_refl eq_refl)
    as (Hobjs & _).
  eexists. split; [unfold deref; rewrite Hobjs; reflexivity |].
  split; reflexivity.
Defined.
